(** * Bounded priority queue of the producer/consumer model (src/queue.c)

    A shallow embedding of [queue.c] (with the declarations of [queue.h]
    and the callers' view from [main.c]) and the proofs of its ordering,
    capacity, conservation and cancellation properties.

    Modelling conventions.
    - C [int] values are [Z].  The constructor bounds the capacity by 20,
      so in every well-formed state all intermediate values of the index
      arithmetic lie between -1 and 40 and no wrap-around can occur; the
      C remainder [%] is [Z.rem] (truncating).
    - The [items] array is a [list QueueItem]; a load or store outside the
      array is undefined behaviour in C and is [None] here, so a theorem
      that an operation yields [Some _] also says that every access it
      made was in bounds.
    - A pointer argument is an [option]: [None] is [NULL].
    - The body of [queue_enqueue]/[queue_dequeue] from the last evaluation
      of the wait-loop condition to the return runs under the queue mutex;
      it is modelled as one atomic step.  When the loop condition holds
      the thread parks in [pthread_cond_wait] ([Suspended]) and the step
      is retried after wake-up.
    - [timeout_flag] is a global [volatile int] that is read twice by each
      operation (loop condition, then the [if]); the only writes in the
      program store 1 ([timeout_handler] and the thread-creation error
      paths of [main]), and such a write may land between the two reads:
      the [fired] argument says whether it did.
    - [printf]/[fprintf] calls are recorded as a list of [Event]s. *)

From stdpp Require Import base numbers option list.

#[local] Open Scope Z_scope.

(** ** Data model (queue.h) *)

Record QueueItem : Type := mkQueueItem {
  value : Z;        (* random data value *)
  priority : Z;     (* priority level *)
  producer_id : Z;  (* which producer created this item *)
  timestamp : Z;    (* the C double, as its bit pattern: only ever copied *)
  sequence : Z      (* sequence number from this producer *)
}.

Record Queue : Type := mkQueue {
  items : list QueueItem;  (* array of queue items *)
  capacity : Z;            (* maximum size of queue *)
  size : Z;                (* current number of items *)
  head : Z;                (* index of front item *)
  tail : Z                 (* index where next item will be added *)
}.

(** Bounds-checked array access: [a[i]] and [a[i] = x]. *)
Definition load (a : list QueueItem) (i : Z) : option QueueItem :=
  if bool_decide (0 <= i) then a !! Z.to_nat i else None.

Definition store (a : list QueueItem) (i : Z) (x : QueueItem)
  : option (list QueueItem) :=
  if bool_decide (0 <= i < Z.of_nat (length a))
  then Some (<[Z.to_nat i := x]> a) else None.

(** ** Output of the queue functions *)

Inductive Message : Type :=
| ErrInvalidCapacity (c : Z)      (* "Error: Invalid queue capacity %d" *)
| ErrAllocQueue                   (* "Error: Failed to allocate memory for queue structure" *)
| ErrAllocItems                   (* "Error: Failed to allocate memory for queue items" *)
| ErrMutexInit                    (* "Error: Failed to initialize queue mutex" *)
| ErrNotFullInit                  (* "Error: Failed to initialize not_full condition variable" *)
| ErrNotEmptyInit                 (* "Error: Failed to initialize not_empty condition variable" *)
| DbgInitialized (c : Z)          (* "[QUEUE] Initialized queue with capacity %d" *)
| ErrEnqueueNull                  (* "Error: Cannot enqueue to NULL queue" *)
| DbgEnqueued (it : QueueItem) (sz cap : Z)  (* "[QUEUE] Enqueued: ..." *)
| ErrDequeueNull                  (* "Error: Cannot dequeue from NULL queue or to NULL item" *)
| DbgDequeued (it : QueueItem) (sz cap : Z)  (* "[QUEUE] Dequeued: ..." *)
| DbgDestroying                   (* "[QUEUE] Destroying queue and releasing resources..." *)
| DbgReleased.                    (* "[QUEUE] Queue resources released" *)

Inductive Event : Type :=
| Stderr (m : Message)
| Stdout (m : Message).

(** ** Resources acquired by the constructor *)

Inductive Resource : Type :=
| QueueStruct | ItemsArray | Mutex | CondNotFull | CondNotEmpty.

#[global] Instance Resource_eq_dec : EqDecision Resource.
Proof. solve_decision. Defined.

(** What the platform answers to each acquisition request of [queue_init],
    and the (uninitialised) contents of a freshly allocated array. *)
Record Platform : Type := mkPlatform {
  malloc_queue_ok : bool;
  malloc_items_ok : bool;
  mutex_init_ok : bool;
  not_full_init_ok : bool;
  not_empty_init_ok : bool;
  heap_garbage : nat → QueueItem
}.

Definition acquire (r : Resource) (held : list Resource) : list Resource :=
  r :: held.

(** [free]/[pthread_*_destroy]: releasing what is not held is an error. *)
Definition release (r : Resource) (held : list Resource)
  : option (list Resource) :=
  if bool_decide (r ∈ held)
  then Some (filter (λ r', r' ≠ r) held) else None.

Record InitResult : Type := mkInitResult {
  init_queue : option Queue;       (* the returned pointer *)
  init_held : list Resource;       (* resources still held on return *)
  init_out : list Event
}.

(** ** Result of one blocking operation *)

Inductive Outcome (S : Type) : Type :=
| Suspended                                   (* parked in pthread_cond_wait *)
| Returned (ret : Z) (st : S) (out : list Event).
Arguments Suspended {S}.
Arguments Returned {S} ret st out.

(** The value of [timeout_flag] at the second read. *)
Definition flag_at_check (fired : bool) (timeout_flag : Z) : Z :=
  if fired then 1 else timeout_flag.

Section Queue.

(** [DEBUG_MODE] comes from config.h. *)
Variable DEBUG_MODE : bool.

Definition debug (m : Message) : list Event :=
  if DEBUG_MODE then [Stdout m] else [].

(** *** queue_init *)
Definition queue_init (P : Platform) (capacity : Z) : option InitResult :=
  if (capacity <=? 0) || (capacity >? 20) then
    Some (mkInitResult None [] [Stderr (ErrInvalidCapacity capacity)])
  else if negb (malloc_queue_ok P) then
    Some (mkInitResult None [] [Stderr ErrAllocQueue])
  else
    let held := acquire QueueStruct [] in
    if negb (malloc_items_ok P) then
      held ← release QueueStruct held;
      Some (mkInitResult None held [Stderr ErrAllocItems])
    else
      let held := acquire ItemsArray held in
      let q := mkQueue (heap_garbage P <$> seq 0 (Z.to_nat capacity))
                       capacity 0 0 0 in
      if negb (mutex_init_ok P) then
        held ← release ItemsArray held;
        held ← release QueueStruct held;
        Some (mkInitResult None held [Stderr ErrMutexInit])
      else
        let held := acquire Mutex held in
        if negb (not_full_init_ok P) then
          held ← release Mutex held;
          held ← release ItemsArray held;
          held ← release QueueStruct held;
          Some (mkInitResult None held [Stderr ErrNotFullInit])
        else
          let held := acquire CondNotFull held in
          if negb (not_empty_init_ok P) then
            held ← release CondNotFull held;
            held ← release Mutex held;
            held ← release ItemsArray held;
            held ← release QueueStruct held;
            Some (mkInitResult None held [Stderr ErrNotEmptyInit])
          else
            let held := acquire CondNotEmpty held in
            Some (mkInitResult (Some q) held (debug (DbgInitialized capacity))).

(** *** queue_is_full, queue_is_empty, queue_get_size *)
Definition queue_is_full (q : Queue) : bool := size q =? capacity q.

Definition queue_is_empty (q : Queue) : bool := size q =? 0.

Definition queue_get_size (q : Queue) : Z * list Event := (size q, []).

(** *** queue_enqueue *)
Definition queue_enqueue (timeout_flag : Z) (fired : bool)
    (q : option Queue) (item : QueueItem) : option (Outcome (option Queue)) :=
  match q with
  | None => Some (Returned (-1) None [Stderr ErrEnqueueNull])
  | Some q0 =>
    if queue_is_full q0 && (timeout_flag =? 0) then Some Suspended
    else if negb (flag_at_check fired timeout_flag =? 0) then
      Some (Returned (-1) (Some q0) [])
    else
      its ← store (items q0) (tail q0) item;
      let tl := Z.rem (tail q0 + 1) (capacity q0) in
      let sz := size q0 + 1 in
      Some (Returned 0
              (Some (mkQueue its (capacity q0) sz (head q0) tl))
              (debug (DbgEnqueued item sz (capacity q0))))
  end.

(** *** find_highest_priority_index

    [scan_loop n idx highest_priority highest_idx] is the [for] loop with
    [n] iterations left. *)
Fixpoint scan_loop (q : Queue) (n : nat)
    (idx highest_priority highest_idx : Z) : option Z :=
  match n with
  | O => Some highest_idx
  | S n' =>
    it ← load (items q) idx;
    let idx' := Z.rem (idx + 1) (capacity q) in
    if priority it >? highest_priority
    then scan_loop q n' idx' (priority it) idx
    else scan_loop q n' idx' highest_priority highest_idx
  end.

Definition find_highest_priority_index (q : Queue) : option Z :=
  if queue_is_empty q then Some (-1)
  else
    hd ← load (items q) (head q);
    scan_loop q (Z.to_nat (size q)) (head q) (priority hd) (head q).

(** *** remove_at_index

    [shift_loop cap n current a] is the shifting [for] loop with [n]
    iterations left, on the array [a]. *)
Fixpoint shift_loop (cap : Z) (n : nat) (current : Z)
    (a : list QueueItem) : option (list QueueItem) :=
  match n with
  | O => Some a
  | S n' =>
    let next := Z.rem (current + 1) cap in
    x ← load a next;
    a' ← store a current x;
    shift_loop cap n' next a'
  end.

Definition shift_count (q : Queue) (remove_idx : Z) : Z :=
  if remove_idx >=? head q then
    if tail q >? remove_idx then tail q - remove_idx - 1
    else (capacity q - remove_idx) + tail q - 1
  else tail q - remove_idx - 1.

Definition remove_at_index (q : Queue) (remove_idx : Z) : option Queue :=
  let shifts := shift_count q remove_idx in
  its ← shift_loop (capacity q) (Z.to_nat shifts) remove_idx (items q);
  Some (mkQueue its (capacity q) (size q - 1) (head q)
                (Z.rem (tail q - 1 + capacity q) (capacity q))).

(** *** queue_dequeue

    The state is the queue behind [q] and the cell behind [item]. *)
Definition queue_dequeue (timeout_flag : Z) (fired : bool)
    (q : option Queue) (item : option QueueItem)
  : option (Outcome (option Queue * option QueueItem)) :=
  match q, item with
  | Some q0, Some _ =>
    if queue_is_empty q0 && (timeout_flag =? 0) then Some Suspended
    else if negb (flag_at_check fired timeout_flag =? 0) then
      Some (Returned (-1) (q, item) [])
    else
      remove_idx ← find_highest_priority_index q0;
      if remove_idx =? -1 then
        (* "Should never happen due to the wait above" *)
        Some (Returned (-1) (q, item) [])
      else
        it ← load (items q0) remove_idx;
        q1 ← (if remove_idx =? head q0 then
                Some (mkQueue (items q0) (capacity q0) (size q0 - 1)
                              (Z.rem (head q0 + 1) (capacity q0)) (tail q0))
              else remove_at_index q0 remove_idx);
        Some (Returned 0 (Some q1, Some it)
                (debug (DbgDequeued it (size q1) (capacity q1))))
  | _, _ => Some (Returned (-1) (q, item) [Stderr ErrDequeueNull])
  end.

(** *** queue_destroy: the resources held afterwards and the output. *)
Definition queue_destroy (q : option Queue) (held : list Resource)
  : option (list Resource * list Event) :=
  match q with
  | None => Some (held, [])
  | Some _ =>
    held ← release CondNotEmpty held;
    held ← release CondNotFull held;
    held ← release Mutex held;
    held ← release ItemsArray held;
    held ← release QueueStruct held;
    Some (held, debug DbgDestroying ++ debug DbgReleased)
  end.

End Queue.

(** ** The orchestration layer's argument check (main.c)

    [MAX_PRODUCERS] and [MAX_CONSUMERS] come from config.h. *)

Inductive ArgError : Type :=
| ErrProducers    (* "Error: n_producers must be between 1 and %d" *)
| ErrConsumers    (* "Error: n_consumers must be between 1 and %d" *)
| ErrQueueSize    (* "Error: queue_size must be between 1 and 20" *)
| ErrTimeout.     (* "Error: timeout must be positive" *)

Section Main.

Variables MAX_PRODUCERS MAX_CONSUMERS : Z.

Definition validate_arguments (n_producers n_consumers queue_size timeout : Z)
  : bool * list ArgError :=
  let '(valid, out) := (true, []) in
  let '(valid, out) :=
    if (n_producers <? 1) || (n_producers >? MAX_PRODUCERS)
    then (false, out ++ [ErrProducers]) else (valid, out) in
  let '(valid, out) :=
    if (n_consumers <? 1) || (n_consumers >? MAX_CONSUMERS)
    then (false, out ++ [ErrConsumers]) else (valid, out) in
  let '(valid, out) :=
    if (queue_size <? 1) || (queue_size >? 20)
    then (false, out ++ [ErrQueueSize]) else (valid, out) in
  let '(valid, out) :=
    if timeout <=? 0
    then (false, out ++ [ErrTimeout]) else (valid, out) in
  (valid, out).

End Main.

(** [timeout_handler]: the store to the flag (its broadcast only wakes
    parked threads, which then retry their step). *)
Definition timeout_handler (timeout_flag : Z) : Z := 1.

(** ** Sequences of operations on one shared queue *)

Record World : Type := mkWorld {
  w_queue : Queue;   (* the queue behind the shared pointer *)
  w_flag : Z         (* timeout_flag *)
}.

Inductive Op : Type :=
| Enqueue (item : QueueItem) (fired : bool)
| Dequeue (cell : QueueItem) (fired : bool)
| Timeout.

Inductive Obs : Type :=
| Enqueued (item : QueueItem)   (* queue_enqueue returned 0 *)
| Dequeued (item : QueueItem)   (* queue_dequeue returned 0 with this item *)
| Failed                        (* the call returned -1 *)
| Waiting                       (* the caller is parked; nothing changed *)
| TimedOut.                     (* timeout_handler ran *)

Section Run.

Variable DEBUG_MODE : bool.

Definition step (w : World) (op : Op) : option (World * Obs) :=
  match op with
  | Enqueue item fired =>
    r ← queue_enqueue DEBUG_MODE (w_flag w) fired (Some (w_queue w)) item;
    match r with
    | Suspended => Some (w, Waiting)
    | Returned ret (Some q') _ =>
      Some (mkWorld q' (flag_at_check fired (w_flag w)),
            if ret =? 0 then Enqueued item else Failed)
    | Returned _ None _ => None
    end
  | Dequeue cell fired =>
    r ← queue_dequeue DEBUG_MODE (w_flag w) fired
          (Some (w_queue w)) (Some cell);
    match r with
    | Suspended => Some (w, Waiting)
    | Returned ret (Some q', Some it) _ =>
      Some (mkWorld q' (flag_at_check fired (w_flag w)),
            if ret =? 0 then Dequeued it else Failed)
    | Returned _ _ _ => None
    end
  | Timeout => Some (mkWorld (w_queue w) (timeout_handler (w_flag w)), TimedOut)
  end.

(** The observation and the world after each operation, in order. *)
Fixpoint run (w : World) (ops : list Op) : option (list (Obs * World)) :=
  match ops with
  | [] => Some []
  | op :: ops' =>
    '(w1, o) ← step w op;
    rest ← run w1 ops';
    Some ((o, w1) :: rest)
  end.

End Run.

Definition enqueued_items (tr : list (Obs * World)) : list QueueItem :=
  omap (λ ow, match ow.1 with Enqueued x => Some x | _ => None end) tr.

Definition dequeued_items (tr : list (Obs * World)) : list QueueItem :=
  omap (λ ow, match ow.1 with Dequeued x => Some x | _ => None end) tr.

Definition final (w : World) (tr : list (Obs * World)) : World :=
  default w (snd <$> last tr).

(** ** The ring-buffer invariant and the abstract contents *)

Record wf (q : Queue) : Prop := mkWf {
  wf_capacity : 0 < capacity q <= 20;
  wf_items : Z.of_nat (length (items q)) = capacity q;
  wf_size : 0 <= size q <= capacity q;
  wf_head : 0 <= head q < capacity q;
  wf_tail : tail q = (head q + size q) `mod` capacity q
}.

(** The array index of the [k]-th item in arrival order. *)
Definition slot (q : Queue) (k : nat) : Z :=
  (head q + Z.of_nat k) `mod` capacity q.

(** The items owned by the queue, from the logical head to the tail. *)
Definition contents (q : Queue) : list QueueItem :=
  take (Z.to_nat (size q)) (rotate (Z.to_nat (head q)) (items q)).

(** [k] is the position dequeue must select in [l]: a maximum of the
    priority key, and the earliest one. *)
Definition selects (l : list QueueItem) (k : nat) (x : QueueItem) : Prop :=
  l !! k = Some x ∧
  (∀ j y, l !! j = Some y → priority y <= priority x) ∧
  (∀ j y, (j < k)%nat → l !! j = Some y → priority y < priority x).

(** What one step of [run] guarantees about the queue, by observation. *)
Definition step_post (q q' : Queue) (o : Obs) : Prop :=
  match o with
  | Enqueued x =>
    size q < capacity q ∧ size q' = size q + 1
    ∧ contents q' = contents q ++ [x]
  | Dequeued x =>
    0 < size q ∧ size q' = size q - 1
    ∧ ∃ k, selects (contents q) k x ∧ contents q' = delete k (contents q)
  | Failed | Waiting | TimedOut => q' = q
  end.

(** A platform on which every acquisition succeeds. *)
Definition platform_ok (P : Platform) : Prop :=
  malloc_queue_ok P = true ∧ malloc_items_ok P = true
  ∧ mutex_init_ok P = true ∧ not_full_init_ok P = true
  ∧ not_empty_init_ok P = true.

Definition zero_item : QueueItem := mkQueueItem 0 0 0 0 0.

Definition good_platform : Platform :=
  mkPlatform true true true true true (λ _, zero_item).

(** A platform whose second condition variable cannot be created. *)
Definition failing_platform : Platform :=
  mkPlatform true true true true false (λ _, zero_item).

(** Everything [queue_init] acquires, most recent first. *)
Definition all_resources : list Resource :=
  [CondNotEmpty; CondNotFull; Mutex; ItemsArray; QueueStruct].

(** The queue a successful [queue_init] returns. *)
Definition fresh_queue (P : Platform) (c : Z) : Queue :=
  mkQueue (heap_garbage P <$> seq 0 (Z.to_nat c)) c 0 0 0.

(** Sample items: A and B of priority 3, C of priority 5. *)
Definition item_A : QueueItem := mkQueueItem 1 3 1 0 1.
Definition item_B : QueueItem := mkQueueItem 2 3 1 0 2.
Definition item_C : QueueItem := mkQueueItem 3 5 2 0 1.

(** A queue of capacity 4 holding A, C, B from slot 3 on (wrapped). *)
Definition sample_queue : Queue :=
  mkQueue [item_C; item_B; zero_item; item_A] 4 3 3 2.

(** The result of a successful [queue_init] of capacity 2, and a run that
    fills the queue, meets it full, and drains it. *)
Definition sample_init : InitResult :=
  mkInitResult (Some (fresh_queue good_platform 2)) all_resources [].

Definition sample_ops : list Op :=
  [Enqueue item_A false; Enqueue item_C false; Enqueue item_B false;
   Dequeue zero_item false; Dequeue zero_item false;
   Dequeue zero_item false].

(** The structural invariant of the ring buffer, as the cursors see it. *)
Definition ring_invariant (q : Queue) : Prop :=
  0 <= head q < capacity q ∧ 0 <= tail q < capacity q
  ∧ tail q = (head q + size q) `mod` capacity q
  ∧ ∀ k, (k < Z.to_nat (size q))%nat →
      contents q !! k
      = load (items q) ((head q + Z.of_nat k) `mod` capacity q).

(** How an observation changes the occupancy count. *)
Definition count_change (q q' : Queue) (o : Obs) : Prop :=
  match o with
  | Enqueued _ => size q < capacity q ∧ size q' = size q + 1
  | Dequeued _ => 0 < size q ∧ size q' = size q - 1
  | Failed | Waiting | TimedOut => size q' = size q
  end.

(** ** The callers' non-blocking probes (producer.c, consumer.c) *)

Definition queue_is_full_check (q : Queue) : bool := queue_is_full q.

Definition queue_is_empty_check (q : Queue) : bool := queue_is_empty q.

(** The dequeue operations that drain into the given cells, flag unset. *)
Definition drain_ops (cells : list QueueItem) : list Op :=
  (λ c, Dequeue c false) <$> cells.

(** The items of priority [p], in order. *)
Definition of_priority (p : Z) (l : list QueueItem) : list QueueItem :=
  filter (λ x, priority x = p) l.

(** ** Random numbers and sleeping (utils.c)

    libc's generator is a parameter: its state type, [srand], [rand] and
    [rand_r].  The clock and the process id that seed it are read from
    [Clock]; the seed expression is evaluated in [long], where it stays
    far from overflow for every real clock value, and is then converted
    to [unsigned int].  [int] arithmetic that would overflow is undefined
    ([None]). *)

Definition INT_MAX : Z := 2147483647.

Record Clock : Type := mkClock {
  tv_sec : Z;
  tv_usec : Z;
  pid : Z
}.

Inductive UtilsMessage : Type :=
| DbgRandomInitialized.   (* "[UTILS] Random number generator initialized" *)

Section Utils.

Variable DEBUG_MODE : bool.
Variable RandState : Type.
Variable srand : Z → RandState.
Variable rand : RandState → Z * RandState.
Variable rand_r : Z → Z * Z.

Record UtilsState : Type := mkUtilsState {
  random_initialized : Z;   (* the static flag *)
  libc_rand : RandState     (* the hidden state of rand() *)
}.

Definition init_random (now : Clock) (st : UtilsState)
  : UtilsState * list UtilsMessage :=
  if random_initialized st =? 0 then
    (mkUtilsState 1
       (srand ((tv_sec now * 1000000 + tv_usec now + pid now) `mod` 2 ^ 32)),
     if DEBUG_MODE then [DbgRandomInitialized] else [])
  else (st, []).

Definition random_range (now : Clock) (min max : Z) (st : UtilsState)
  : option (Z * UtilsState * list UtilsMessage) :=
  let '(st, out) :=
    if random_initialized st =? 0 then init_random now st else (st, []) in
  let '(min, max) := if min >? max then (max, min) else (min, max) in
  if min =? max then Some (min, st, out)
  else
    let range := max - min + 1 in
    if range >? INT_MAX then None
    else
      let '(r, g) := rand (libc_rand st) in
      Some (Z.rem r range + min, mkUtilsState (random_initialized st) g, out).

(** The result and the updated [*seed]. *)
Definition random_range_seed (min max : Z) (seed : Z) : option (Z * Z) :=
  let '(min, max) := if min >? max then (max, min) else (min, max) in
  if min =? max then Some (min, seed)
  else
    let range := max - min + 1 in
    if range >? INT_MAX then None
    else
      let '(r, seed') := rand_r seed in
      Some (Z.rem r range + min, seed').

(** The argument passed to [sleep] ([None]: returned without calling it). *)
Definition sleep_random (now : Clock) (max_seconds : Z) (st : UtilsState)
  : option (option Z * UtilsState * list UtilsMessage) :=
  if max_seconds <=? 0 then Some (None, st, [])
  else
    '(sleep_time, st', out) ← random_range now 1 max_seconds st;
    Some (Some sleep_time, st', out).

End Utils.

Arguments random_initialized {RandState} _.
Arguments libc_rand {RandState} _.

(** ** Metrics (analytics.c)

    The counters are [long]: incrementing one at [LONG_MAX] is undefined
    ([None]).  The latency fields are [double]s; their arithmetic is a
    parameter ([d_add] is [+], [d_lt] is [<]), on which no counter
    depends.  [PRIORITY_HIGH] and [PRIORITY_NORMAL] come from config.h. *)

Inductive AnalyticsResource : Type :=
| AnalyticsStruct | AnalyticsMutex.

#[global] Instance AnalyticsResource_eq_dec : EqDecision AnalyticsResource.
Proof. solve_decision. Defined.

Inductive AnalyticsMessage : Type :=
| ErrAllocAnalytics        (* "Error: Failed to allocate analytics structure" *)
| ErrAnalyticsMutex        (* "Error: Failed to initialize analytics mutex" *)
| DbgAnalyticsInitialized  (* "[ANALYTICS] Analytics initialized" *)
| DbgAnalyticsDestroying   (* "[ANALYTICS] Destroying analytics structure..." *)
| DbgAnalyticsReleased.    (* "[ANALYTICS] Analytics resources released" *)

Inductive AnalyticsEvent : Type :=
| AStderr (m : AnalyticsMessage)
| AStdout (m : AnalyticsMessage).

(** [free]/[pthread_mutex_destroy] on the analytics resources. *)
Definition release_analytics (r : AnalyticsResource)
    (held : list AnalyticsResource) : option (list AnalyticsResource) :=
  if bool_decide (r ∈ held)
  then Some (filter (λ r', r' ≠ r) held) else None.

Section Analytics.

Variable DEBUG_MODE : bool.
Variables PRIORITY_HIGH PRIORITY_NORMAL : Z.
Variable LONG_MAX : Z.
Variable double : Type.
Variable d_add : double → double → double.
Variable d_lt : double → double → bool.
Variables d_zero d_minus_one : double.

Record Analytics : Type := mkAnalytics {
  total_produced : Z;
  total_consumed : Z;
  producer_blocks : Z;
  consumer_blocks : Z;
  total_latency : double;
  min_latency : double;
  max_latency : double;
  high_priority_consumed : Z;
  normal_priority_consumed : Z;
  low_priority_consumed : Z
}.

Record AnalyticsInit : Type := mkAnalyticsInit {
  ainit_ptr : option Analytics;
  ainit_held : list AnalyticsResource;
  ainit_out : list AnalyticsEvent
}.

Definition adebug (m : AnalyticsMessage) : list AnalyticsEvent :=
  if DEBUG_MODE then [AStdout m] else [].

(** [x++] on a [long]. *)
Definition long_incr (x : Z) : option Z :=
  if x <? LONG_MAX then Some (x + 1) else None.

Definition analytics_init (malloc_ok mutex_ok : bool) : option AnalyticsInit :=
  if negb malloc_ok then
    Some (mkAnalyticsInit None [] [AStderr ErrAllocAnalytics])
  else
    let held := [AnalyticsStruct] in
    let a := mkAnalytics 0 0 0 0 d_zero d_minus_one d_zero 0 0 0 in
    if negb mutex_ok then
      held ← release_analytics AnalyticsStruct held;
      Some (mkAnalyticsInit None held [AStderr ErrAnalyticsMutex])
    else
      Some (mkAnalyticsInit (Some a) (AnalyticsMutex :: held)
              (adebug DbgAnalyticsInitialized)).

Definition analytics_record_produce (a : option Analytics)
  : option (option Analytics) :=
  match a with
  | None => Some None
  | Some a0 =>
    n ← long_incr (total_produced a0);
    Some (Some (mkAnalytics n (total_consumed a0) (producer_blocks a0)
                  (consumer_blocks a0) (total_latency a0) (min_latency a0)
                  (max_latency a0) (high_priority_consumed a0)
                  (normal_priority_consumed a0) (low_priority_consumed a0)))
  end.

(** The min/max update shared by the two consume recorders. *)
Definition update_min (mn latency : double) : double :=
  if d_lt mn d_zero || d_lt latency mn then latency else mn.

Definition update_max (mx latency : double) : double :=
  if d_lt mx latency then latency else mx.

Definition analytics_record_consume (a : option Analytics) (latency : double)
  : option (option Analytics) :=
  match a with
  | None => Some None
  | Some a0 =>
    n ← long_incr (total_consumed a0);
    Some (Some (mkAnalytics (total_produced a0) n (producer_blocks a0)
                  (consumer_blocks a0) (d_add (total_latency a0) latency)
                  (update_min (min_latency a0) latency)
                  (update_max (max_latency a0) latency)
                  (high_priority_consumed a0)
                  (normal_priority_consumed a0) (low_priority_consumed a0)))
  end.

Definition analytics_record_consume_priority (a : option Analytics)
    (priority : Z) (latency : double) : option (option Analytics) :=
  match a with
  | None => Some None
  | Some a0 =>
    n ← long_incr (total_consumed a0);
    '(hi, no, lo) ←
      (if priority =? PRIORITY_HIGH then
         h ← long_incr (high_priority_consumed a0);
         Some (h, normal_priority_consumed a0, low_priority_consumed a0)
       else if priority =? PRIORITY_NORMAL then
         m ← long_incr (normal_priority_consumed a0);
         Some (high_priority_consumed a0, m, low_priority_consumed a0)
       else
         l ← long_incr (low_priority_consumed a0);
         Some (high_priority_consumed a0, normal_priority_consumed a0, l));
    Some (Some (mkAnalytics (total_produced a0) n (producer_blocks a0)
                  (consumer_blocks a0) (d_add (total_latency a0) latency)
                  (update_min (min_latency a0) latency)
                  (update_max (max_latency a0) latency) hi no lo))
  end.

Definition analytics_record_producer_block (a : option Analytics)
  : option (option Analytics) :=
  match a with
  | None => Some None
  | Some a0 =>
    n ← long_incr (producer_blocks a0);
    Some (Some (mkAnalytics (total_produced a0) (total_consumed a0) n
                  (consumer_blocks a0) (total_latency a0) (min_latency a0)
                  (max_latency a0) (high_priority_consumed a0)
                  (normal_priority_consumed a0) (low_priority_consumed a0)))
  end.

Definition analytics_record_consumer_block (a : option Analytics)
  : option (option Analytics) :=
  match a with
  | None => Some None
  | Some a0 =>
    n ← long_incr (consumer_blocks a0);
    Some (Some (mkAnalytics (total_produced a0) (total_consumed a0)
                  (producer_blocks a0) n (total_latency a0) (min_latency a0)
                  (max_latency a0) (high_priority_consumed a0)
                  (normal_priority_consumed a0) (low_priority_consumed a0)))
  end.

(** The four output cells after the call ([None]: a NULL pointer). *)
Definition analytics_get_snapshot (a : option Analytics)
    (produced consumed prod_blocks cons_blocks : option Z)
  : option Z * option Z * option Z * option Z :=
  match a with
  | None => (produced, consumed, prod_blocks, cons_blocks)
  | Some a0 =>
    ((λ _, total_produced a0) <$> produced,
     (λ _, total_consumed a0) <$> consumed,
     (λ _, producer_blocks a0) <$> prod_blocks,
     (λ _, consumer_blocks a0) <$> cons_blocks)
  end.

Definition analytics_destroy (a : option Analytics)
    (held : list AnalyticsResource)
  : option (list AnalyticsResource * list AnalyticsEvent) :=
  match a with
  | None => Some (held, [])
  | Some _ =>
    held ← release_analytics AnalyticsMutex held;
    held ← release_analytics AnalyticsStruct held;
    Some (held, adebug DbgAnalyticsDestroying ++ adebug DbgAnalyticsReleased)
  end.

(** One call of a recorder, and a sequence of them. *)
Inductive Metric : Type :=
| RecProduce
| RecConsume (latency : double)
| RecConsumePriority (priority : Z) (latency : double)
| RecProducerBlock
| RecConsumerBlock.

Definition record_metric (a : option Analytics) (m : Metric)
  : option (option Analytics) :=
  match m with
  | RecProduce => analytics_record_produce a
  | RecConsume l => analytics_record_consume a l
  | RecConsumePriority p l => analytics_record_consume_priority a p l
  | RecProducerBlock => analytics_record_producer_block a
  | RecConsumerBlock => analytics_record_consumer_block a
  end.

Fixpoint record_all (a : option Analytics) (ms : list Metric)
  : option (option Analytics) :=
  match ms with
  | [] => Some a
  | m :: ms' => a' ← record_metric a m; record_all a' ms'
  end.

(** How many calls of a sequence bump each counter. *)
Definition bumps_produced (m : Metric) : bool :=
  match m with RecProduce => true | _ => false end.

Definition bumps_consumed (m : Metric) : bool :=
  match m with RecConsume _ | RecConsumePriority _ _ => true | _ => false end.

Definition bumps_producer_blocks (m : Metric) : bool :=
  match m with RecProducerBlock => true | _ => false end.

Definition bumps_consumer_blocks (m : Metric) : bool :=
  match m with RecConsumerBlock => true | _ => false end.

Definition bumps_high (m : Metric) : bool :=
  match m with
  | RecConsumePriority p _ => p =? PRIORITY_HIGH
  | _ => false
  end.

Definition bumps_normal (m : Metric) : bool :=
  match m with
  | RecConsumePriority p _ =>
    negb (p =? PRIORITY_HIGH) && (p =? PRIORITY_NORMAL)
  | _ => false
  end.

Definition bumps_low (m : Metric) : bool :=
  match m with
  | RecConsumePriority p _ =>
    negb (p =? PRIORITY_HIGH) && negb (p =? PRIORITY_NORMAL)
  | _ => false
  end.

Definition count (f : Metric → bool) (ms : list Metric) : Z :=
  Z.of_nat (length (filter (λ m, f m = true) ms)).

End Analytics.

Arguments total_produced {double} _.
Arguments total_consumed {double} _.
Arguments producer_blocks {double} _.
Arguments consumer_blocks {double} _.
Arguments total_latency {double} _.
Arguments min_latency {double} _.
Arguments max_latency {double} _.
Arguments high_priority_consumed {double} _.
Arguments normal_priority_consumed {double} _.
Arguments low_priority_consumed {double} _.
Arguments ainit_ptr {double} _.
Arguments ainit_held {double} _.
Arguments ainit_out {double} _.

(** A stand-in for libc's generator: the state is a counter, the value
    drawn is its absolute value. *)
Definition sample_rand (g : Z) : Z * Z := (Z.abs g, g + 1).

Definition sample_clock : Clock := mkClock 1700000000 250000 4242.

(** A sample of recorder calls, with integers standing in for the
    latencies: priorities 9, 5 and 0 are high, normal and low. *)
Definition sample_metrics : list (Metric Z) :=
  [RecProduce Z; RecProduce Z; RecConsumePriority Z 9 3; RecProducerBlock Z;
   RecProduce Z; RecConsumePriority Z 5 1; RecConsume Z 7;
   RecConsumePriority Z 0 2; RecConsumerBlock Z].

(** ** Arithmetic of the ring indices *)

Lemma mod_wrap a c :
  0 <= a < 2 * c →
  (a < c ∧ a `mod` c = a) ∨ (c <= a ∧ a `mod` c = a - c).
Proof.
  intros H. destruct (decide (a < c)) as [Hlt|Hge].
  - left. split; [done|]. apply Z.mod_small. lia.
  - right. split; [lia|].
    rewrite (Z.mod_in_range 1) by lia. lia.
Qed.

Lemma rem_is_mod a c : 0 <= a → 0 < c → Z.rem a c = a `mod` c.
Proof. intros. apply Z.rem_mod_nonneg; lia. Qed.

Section Slots.

Context (q : Queue) (Hwf : wf q).

Lemma slot_range k : 0 <= slot q k < capacity q.
Proof. destruct Hwf. unfold slot. apply Z.mod_pos_bound. lia. Qed.

Lemma slot_0 : slot q 0 = head q.
Proof.
  destruct Hwf. unfold slot. rewrite Z.add_0_r. apply Z.mod_small. lia.
Qed.

Lemma slot_succ k : Z.rem (slot q k + 1) (capacity q) = slot q (S k).
Proof.
  destruct Hwf. pose proof (slot_range k).
  rewrite rem_is_mod by lia. unfold slot.
  rewrite Zplus_mod_idemp_l. f_equal. lia.
Qed.

Lemma slot_size : slot q (Z.to_nat (size q)) = tail q.
Proof. destruct Hwf. unfold slot. rewrite Z2Nat.id by lia. done. Qed.

Lemma slot_inj k1 k2 :
  Z.of_nat k1 < capacity q → Z.of_nat k2 < capacity q →
  slot q k1 = slot q k2 → k1 = k2.
Proof.
  destruct Hwf. unfold slot. intros H1 H2 Heq.
  destruct (mod_wrap (head q + Z.of_nat k1) (capacity q)) as [[? E1]|[? E1]];
    [lia| |];
    destruct (mod_wrap (head q + Z.of_nat k2) (capacity q)) as [[? E2]|[? E2]];
    try lia.
Qed.

Lemma load_in_range a i :
  Z.of_nat (length a) = capacity q → 0 <= i < capacity q →
  is_Some (load a i).
Proof.
  intros Hlen Hi. unfold load. rewrite bool_decide_eq_true_2 by lia.
  apply lookup_lt_is_Some. lia.
Qed.

Lemma contents_length : length (contents q) = Z.to_nat (size q).
Proof.
  destruct Hwf. unfold contents.
  rewrite length_take, length_rotate. lia.
Qed.

Lemma contents_lookup k :
  (k < Z.to_nat (size q))%nat →
  contents q !! k = load (items q) (slot q k).
Proof.
  destruct Hwf. intros Hk. unfold contents, load.
  pose proof (slot_range k).
  rewrite bool_decide_eq_true_2 by lia.
  rewrite lookup_take_lt by done.
  rewrite lookup_rotate_r by lia.
  f_equal. unfold rotate_nat_add, slot.
  rewrite Z2Nat.id by lia. by rewrite wf_items0.
Qed.

Lemma contents_lookup_ge k :
  (Z.to_nat (size q) <= k)%nat → contents q !! k = None.
Proof. intros. apply lookup_ge_None. by rewrite contents_length. Qed.

End Slots.

(** ** Loads and stores *)

Lemma store_length a i x a' : store a i x = Some a' → length a' = length a.
Proof.
  unfold store. case_bool_decide; [|done].
  intros [= <-]. apply length_insert.
Qed.

Lemma load_store_eq a i x a' : store a i x = Some a' → load a' i = Some x.
Proof.
  unfold store, load. case_bool_decide as Hi; [|done]. intros [= <-].
  rewrite bool_decide_eq_true_2 by lia.
  apply list_lookup_insert_eq. lia.
Qed.

Lemma load_store_ne a i j x a' :
  store a i x = Some a' → i ≠ j → load a' j = load a j.
Proof.
  unfold store, load. case_bool_decide as Hi; [|done]. intros [= <-] Hne.
  case_bool_decide; [|done].
  apply list_lookup_insert_ne. lia.
Qed.

Lemma store_in_range a i x :
  0 <= i < Z.of_nat (length a) → is_Some (store a i x).
Proof. intros. unfold store. rewrite bool_decide_eq_true_2 by done. eauto. Qed.

(** ** queue_enqueue *)

Section Enqueue.

Context (dbg : bool) (q : Queue) (Hwf : wf q).

Lemma enqueue_suspends flag fired item :
  size q = capacity q → flag = 0 →
  queue_enqueue dbg flag fired (Some q) item = Some Suspended.
Proof.
  intros Hfull ->. unfold queue_enqueue, queue_is_full.
  by rewrite Hfull, Z.eqb_refl.
Qed.

Lemma enqueue_cancelled flag fired item :
  flag_at_check fired flag ≠ 0 → size q ≠ capacity q ∨ flag ≠ 0 →
  queue_enqueue dbg flag fired (Some q) item
  = Some (Returned (-1) (Some q) []).
Proof.
  intros Hchk Hloop. unfold queue_enqueue, queue_is_full.
  replace ((size q =? capacity q) && (flag =? 0)) with false
    by (symmetry; apply andb_false_iff; rewrite !Z.eqb_neq; tauto).
  apply Z.eqb_neq in Hchk. by rewrite Hchk.
Qed.

Lemma enqueue_succeeds item :
  size q < capacity q →
  ∃ q', queue_enqueue dbg 0 false (Some q) item
        = Some (Returned 0 (Some q')
                  (debug dbg (DbgEnqueued item (size q + 1) (capacity q))))
    ∧ wf q' ∧ capacity q' = capacity q ∧ head q' = head q
    ∧ size q' = size q + 1
    ∧ contents q' = contents q ++ [item].
Proof.
  intros Hroom. pose proof Hwf as [Hcap Hlen Hsz Hhd Htl].
  assert (Htail : 0 <= tail q < capacity q).
  { rewrite Htl. apply Z.mod_pos_bound. lia. }
  unfold queue_enqueue, queue_is_full.
  replace (size q =? capacity q) with false by (symmetry; apply Z.eqb_neq; lia).
  cbn [andb flag_at_check Z.eqb negb].
  destruct (store_in_range (items q) (tail q) item) as [its Hst]; [lia|].
  rewrite Hst. cbn [mbind option_bind].
  pose proof (store_length _ _ _ _ Hst) as Hlen'.
  set (q' := mkQueue its _ _ _ _).
  assert (Hwf' : wf q').
  { split; cbn; try lia.
    rewrite rem_is_mod, Htl by lia.
    rewrite Zplus_mod_idemp_l. f_equal. lia. }
  exists q'. split_and!; try done.
  apply list_eq. intros i.
  destruct (decide (i < Z.to_nat (size q))%nat) as [Hlt|Hge].
  - rewrite lookup_app_l by (rewrite contents_length by done; lia).
    rewrite !contents_lookup by (done || cbn; lia).
    change (slot q' i) with (slot q i).
    apply (load_store_ne _ _ _ _ _ Hst).
    rewrite <- (slot_size q Hwf). intros Heq.
    apply slot_inj in Heq; [lia|done|lia..].
  - rewrite lookup_app_r by (rewrite contents_length by done; lia).
    rewrite contents_length by done.
    destruct (decide (i = Z.to_nat (size q))) as [->|Hne].
    + rewrite Nat.sub_diag. cbn [lookup list_lookup].
      rewrite contents_lookup by (done || cbn; lia).
      change (slot q' (Z.to_nat (size q))) with (slot q (Z.to_nat (size q))).
      rewrite slot_size by done. apply (load_store_eq _ _ _ _ Hst).
    + rewrite contents_lookup_ge by (done || cbn; lia).
      symmetry. apply lookup_ge_None. cbn. lia.
Qed.

End Enqueue.

(** ** find_highest_priority_index *)

Section Scan.

Context (q : Queue) (Hwf : wf q).

(** Loop invariant: before iteration [i] the candidate is position [k],
    it holds a maximum of the first [i] positions and is strictly above
    everything before it. *)
Lemma scan_loop_spec n : ∀ i k x,
  (i + n = Z.to_nat (size q))%nat →
  contents q !! k = Some x →
  (∀ j y, (j < i)%nat → contents q !! j = Some y → priority y <= priority x) →
  (∀ j y, (j < k)%nat → contents q !! j = Some y → priority y < priority x) →
  ∃ k' x', scan_loop q n (slot q i) (priority x) (slot q k) = Some (slot q k')
    ∧ selects (contents q) k' x'.
Proof.
  induction n as [|n IH]; intros i k x Hin Hk Hmax Hfirst.
  - exists k, x. split; [done|]. split_and!; [done| |done].
    intros j y Hj. apply (Hmax j y); [|done].
    apply lookup_lt_Some in Hj. rewrite contents_length in Hj by done. lia.
  - assert (Hi : (i < Z.to_nat (size q))%nat) by lia.
    destruct (lookup_lt_is_Some_2 (contents q) i) as [it Hit].
    { rewrite contents_length by done. lia. }
    cbn [scan_loop].
    rewrite <- contents_lookup, Hit by done. cbn [mbind option_bind].
    rewrite slot_succ by done.
    rewrite Z.gtb_ltb. destruct (Z.ltb_spec (priority x) (priority it)).
    + apply (IH (S i) i it); [lia|done| |].
      * intros j y Hj Hy. destruct (decide (j = i)) as [->|].
        -- replace y with it by congruence. lia.
        -- assert (priority y <= priority x) by (apply (Hmax j); [lia|done]).
           lia.
      * intros j y Hj Hy.
        assert (priority y <= priority x) by (apply (Hmax j); [lia|done]).
        lia.
    + apply (IH (S i) k x); [lia|done| |done].
      intros j y Hj Hy. destruct (decide (j = i)) as [->|].
      * replace y with it by congruence. lia.
      * apply (Hmax j); [lia|done].
Qed.

Lemma find_highest_spec :
  0 < size q →
  ∃ k x, find_highest_priority_index q = Some (slot q k)
    ∧ selects (contents q) k x.
Proof.
  intros Hpos. unfold find_highest_priority_index, queue_is_empty.
  replace (size q =? 0) with false by (symmetry; apply Z.eqb_neq; lia).
  destruct (lookup_lt_is_Some_2 (contents q) 0) as [hd Hhd].
  { rewrite contents_length by done. lia. }
  rewrite <- (slot_0 q Hwf).
  rewrite <- contents_lookup, Hhd by (done || lia). cbn [mbind option_bind].
  apply (scan_loop_spec _ 0%nat 0%nat hd); [lia|done|lia|lia].
Qed.

Lemma selects_lt k x : selects (contents q) k x → (k < Z.to_nat (size q))%nat.
Proof.
  intros [Hk _]. apply lookup_lt_Some in Hk.
  by rewrite contents_length in Hk.
Qed.

(** The selected position is determined by the contents. *)
Lemma selects_unique (l : list QueueItem) k1 x1 k2 x2 :
  selects l k1 x1 → selects l k2 x2 → k1 = k2 ∧ x1 = x2.
Proof.
  intros (H1 & Hmax1 & Hfst1) (H2 & Hmax2 & Hfst2).
  assert (k1 = k2) as ->.
  { destruct (Nat.lt_trichotomy k1 k2) as [Hlt|[->|Hlt]]; [|done|].
    - pose proof (Hfst2 _ _ Hlt H1). pose proof (Hmax1 _ _ H2). lia.
    - pose proof (Hfst1 _ _ Hlt H2). pose proof (Hmax2 _ _ H1). lia. }
  split; [done|congruence].
Qed.

End Scan.

(** ** remove_at_index *)

Section Remove.

Context (q : Queue) (Hwf : wf q).

Lemma shift_count_spec k :
  (1 <= k < Z.to_nat (size q))%nat →
  shift_count q (slot q k) = size q - Z.of_nat k - 1.
Proof.
  intros Hk. destruct Hwf as [Hcap Hlen Hsz Hhd Htl].
  unfold shift_count, slot. rewrite Htl.
  rewrite Z.geb_leb, Z.gtb_ltb.
  destruct (mod_wrap (head q + Z.of_nat k) (capacity q)) as [[? ->]|[? ->]];
    [lia| |];
    destruct (mod_wrap (head q + size q) (capacity q)) as [[? ->]|[? ->]];
    try lia;
    repeat match goal with
           | |- context [?a <=? ?b] => destruct (Z.leb_spec a b)
           | |- context [?a <? ?b] => destruct (Z.ltb_spec a b)
           end; lia.
Qed.

(** Loop invariant of the shifting loop started at position [k]: the
    [n] positions from [k] on take the value of their successor, every
    other cell is untouched. *)
Lemma shift_loop_spec n : ∀ k a,
  (k + n < Z.to_nat (size q))%nat →
  Z.of_nat (length a) = capacity q →
  ∃ a', shift_loop (capacity q) n (slot q k) a = Some a'
    ∧ length a' = length a
    ∧ (∀ j, (k <= j < k + n)%nat → load a' (slot q j) = load a (slot q (S j)))
    ∧ (∀ i, (∀ j, (k <= j < k + n)%nat → i ≠ slot q j) → load a' i = load a i).
Proof.
  pose proof Hwf as [Hcap Hlen Hsz Hhd Htl].
  induction n as [|n IH]; intros k a Hkn Ha.
  - exists a. split_and!; [done|done|lia|done].
  - cbn [shift_loop]. rewrite slot_succ by done.
    pose proof (slot_range q Hwf k). pose proof (slot_range q Hwf (S k)).
    destruct (load_in_range q a (slot q (S k))) as [x Hx]; [done..|].
    rewrite Hx. cbn [mbind option_bind].
    destruct (store_in_range a (slot q k) x) as [a1 Hst]; [lia|].
    rewrite Hst. cbn [mbind option_bind].
    pose proof (store_length _ _ _ _ Hst) as Hlen1.
    destruct (IH (S k) a1) as (a' & Hrun & Hlen' & Hshift & Hframe);
      [lia|lia|].
    exists a'. split_and!; [done|lia| |].
    + intros j Hj. destruct (decide (j = k)) as [->|Hne].
      * rewrite Hframe.
        -- by rewrite (load_store_eq _ _ _ _ Hst).
        -- intros j Hj' Heq. apply slot_inj in Heq; [lia|done|lia..].
      * rewrite Hshift by lia.
        apply (load_store_ne _ _ _ _ _ Hst).
        intros Heq. apply slot_inj in Heq; [lia|done|lia..].
    + intros i Hi. rewrite Hframe by (intros j Hj; apply Hi; lia).
      apply (load_store_ne _ _ _ _ _ Hst).
      intros Heq. apply (Hi k); [lia|done].
Qed.

Lemma tail_retreat :
  0 < size q →
  Z.rem (tail q - 1 + capacity q) (capacity q)
  = (head q + (size q - 1)) `mod` capacity q.
Proof.
  intros Hpos. destruct Hwf as [Hcap Hlen Hsz Hhd Htl].
  assert (0 <= tail q < capacity q).
  { rewrite Htl. apply Z.mod_pos_bound. lia. }
  rewrite rem_is_mod by lia. rewrite Htl.
  destruct (mod_wrap (head q + size q) (capacity q)) as [[? ->]|[? ->]];
    [lia| |].
  - replace (head q + size q - 1 + capacity q)
      with (head q + (size q - 1) + 1 * capacity q) by lia.
    by rewrite Z_mod_plus_full.
  - f_equal. lia.
Qed.

Lemma remove_at_index_spec k :
  (1 <= k < Z.to_nat (size q))%nat →
  ∃ q', remove_at_index q (slot q k) = Some q'
    ∧ wf q' ∧ capacity q' = capacity q ∧ head q' = head q
    ∧ size q' = size q - 1
    ∧ tail q' = (tail q - 1 + capacity q) `mod` capacity q
    ∧ (∀ j, (k <= j < Z.to_nat (size q) - 1)%nat →
         load (items q') (slot q j) = load (items q) (slot q (S j)))
    ∧ (∀ i, (∀ j, (k <= j < Z.to_nat (size q) - 1)%nat → i ≠ slot q j) →
         load (items q') i = load (items q) i)
    ∧ contents q' = delete k (contents q).
Proof.
  intros Hk. pose proof Hwf as [Hcap Hlen Hsz Hhd Htl].
  unfold remove_at_index. rewrite shift_count_spec by done.
  replace (Z.to_nat (size q - Z.of_nat k - 1))
    with (Z.to_nat (size q) - 1 - k)%nat by lia.
  destruct (shift_loop_spec (Z.to_nat (size q) - 1 - k) k (items q))
    as (its & -> & Hlen' & Hshift & Hframe); [lia|done|].
  cbn [mbind option_bind].
  replace (k + (Z.to_nat (size q) - 1 - k))%nat
    with (Z.to_nat (size q) - 1)%nat in * by lia.
  set (q' := mkQueue its _ _ _ _).
  assert (Hwf' : wf q').
  { split; cbn; try lia. apply tail_retreat. lia. }
  assert (Htl' : 0 <= tail q < capacity q).
  { rewrite Htl. apply Z.mod_pos_bound. lia. }
  exists q'. split_and!; try done.
  { cbn. apply rem_is_mod; lia. }
  apply list_eq. intros i.
  destruct (decide (i < Z.to_nat (size q) - 1)%nat) as [Hi|Hi].
  - rewrite contents_lookup by (done || cbn; lia).
    change (slot q' i) with (slot q i). cbn [items q'].
    destruct (decide (i < k)%nat).
    + rewrite list_lookup_delete_lt by done.
      rewrite contents_lookup by (done || lia).
      apply Hframe. intros j Hj Heq.
      apply slot_inj in Heq; [lia|done|lia..].
    + rewrite list_lookup_delete_ge by lia.
      rewrite contents_lookup by (done || lia).
      apply Hshift. lia.
  - rewrite contents_lookup_ge by (done || cbn; lia).
    symmetry. apply lookup_ge_None.
    rewrite length_delete by (apply lookup_lt_is_Some;
      rewrite contents_length by done; lia).
    rewrite contents_length by done. lia.
Qed.

End Remove.

(** ** queue_dequeue *)

Section Dequeue.

Context (dbg : bool) (q : Queue) (Hwf : wf q).

Lemma dequeue_suspends flag fired cell :
  size q = 0 → flag = 0 →
  queue_dequeue dbg flag fired (Some q) (Some cell) = Some Suspended.
Proof.
  intros Hempty ->. unfold queue_dequeue, queue_is_empty.
  by rewrite Hempty.
Qed.

Lemma dequeue_cancelled flag fired cell :
  flag_at_check fired flag ≠ 0 → size q ≠ 0 ∨ flag ≠ 0 →
  queue_dequeue dbg flag fired (Some q) (Some cell)
  = Some (Returned (-1) (Some q, Some cell) []).
Proof.
  intros Hchk Hloop. unfold queue_dequeue, queue_is_empty.
  replace ((size q =? 0) && (flag =? 0)) with false
    by (symmetry; apply andb_false_iff; rewrite !Z.eqb_neq; tauto).
  apply Z.eqb_neq in Hchk. by rewrite Hchk.
Qed.

Lemma slot_is_head k :
  (k < Z.to_nat (size q))%nat → slot q k = head q ↔ k = 0%nat.
Proof.
  intros Hk. destruct Hwf as [Hcap Hlen Hsz Hhd Htl]. split.
  - rewrite <- (slot_0 q Hwf) at 1. intros Heq.
    apply slot_inj in Heq; [done|by split|lia..].
  - intros ->. by apply slot_0.
Qed.

Lemma dequeue_succeeds cell :
  0 < size q →
  ∃ k x q',
    queue_dequeue dbg 0 false (Some q) (Some cell)
    = Some (Returned 0 (Some q', Some x)
              (debug dbg (DbgDequeued x (size q - 1) (capacity q))))
    ∧ find_highest_priority_index q = Some (slot q k)
    ∧ selects (contents q) k x
    ∧ wf q' ∧ capacity q' = capacity q ∧ size q' = size q - 1
    ∧ contents q' = delete k (contents q)
    ∧ (slot q k = head q →
         head q' = (head q + 1) `mod` capacity q ∧ tail q' = tail q
         ∧ items q' = items q)
    ∧ (slot q k ≠ head q →
         head q' = head q
         ∧ tail q' = (tail q - 1 + capacity q) `mod` capacity q
         ∧ (∀ j, (k <= j < Z.to_nat (size q) - 1)%nat →
              load (items q') (slot q j) = load (items q) (slot q (S j)))
         ∧ (∀ i, (∀ j, (k <= j < Z.to_nat (size q) - 1)%nat → i ≠ slot q j) →
              load (items q') i = load (items q) i)).
Proof.
  intros Hpos. pose proof Hwf as [Hcap Hlen Hsz Hhd Htl].
  destruct (find_highest_spec q Hwf Hpos) as (k & x & Hfind & Hsel).
  pose proof (selects_lt q Hwf k x Hsel) as Hk.
  pose proof (slot_range q Hwf k) as Hrange.
  pose proof Hsel as (Hx & _ & _).
  exists k, x.
  unfold queue_dequeue, queue_is_empty.
  replace (size q =? 0) with false by (symmetry; apply Z.eqb_neq; lia).
  cbn [andb flag_at_check Z.eqb negb].
  rewrite Hfind. cbn [mbind option_bind].
  replace (slot q k =? -1) with false by (symmetry; apply Z.eqb_neq; lia).
  rewrite <- contents_lookup, Hx by done. cbn [mbind option_bind].
  destruct (Z.eqb_spec (slot q k) (head q)) as [Hhead|Hmid].
  - cbn [mbind option_bind size capacity].
    assert (k = 0%nat) as -> by (by apply slot_is_head).
    set (q' := mkQueue _ _ _ _ _).
    assert (Hwf' : wf q').
    { split; cbn; try lia.
      - rewrite rem_is_mod by lia. apply Z.mod_pos_bound. lia.
      - rewrite rem_is_mod, Htl by lia.
        rewrite Zplus_mod_idemp_l. f_equal. lia. }
    assert (Hslot : ∀ i, slot q' i = slot q (S i)).
    { intros i. unfold slot. cbn. rewrite rem_is_mod by lia.
      rewrite Zplus_mod_idemp_l. f_equal. lia. }
    exists q'. split_and!; try done.
    + apply list_eq. intros i. rewrite list_lookup_delete_ge by lia.
      destruct (decide (i < Z.to_nat (size q) - 1)%nat).
      * rewrite !contents_lookup by (done || cbn; lia).
        by rewrite Hslot.
      * rewrite !contents_lookup_ge by (done || cbn; lia). done.
    + intros _. split_and!; try done. cbn. apply rem_is_mod; lia.
  - assert (k ≠ 0%nat) by (by rewrite <- slot_is_head).
    destruct (remove_at_index_spec q Hwf k)
      as (q' & -> & Hwf' & Hcap' & Hhd' & Hsz' & Htl' & Hshift & Hframe & Hcont);
      [lia|].
    cbn [mbind option_bind]. rewrite Hsz', Hcap'.
    exists q'. split_and!; done.
Qed.

End Dequeue.

(** ** queue_init *)

Lemma queue_init_total dbg P c :
  ∃ r, queue_init dbg P c = Some r
    ∧ (init_queue r = None ↔
         c <= 0 ∨ c > 20 ∨ malloc_queue_ok P = false
         ∨ malloc_items_ok P = false ∨ mutex_init_ok P = false
         ∨ not_full_init_ok P = false ∨ not_empty_init_ok P = false)
    ∧ (init_queue r = None → init_held r = [] ∧ ∃ m, init_out r = [Stderr m])
    ∧ (init_queue r ≠ None →
         init_queue r = Some (fresh_queue P c)
         ∧ init_held r = all_resources
         ∧ init_out r = debug dbg (DbgInitialized c)).
Proof.
  unfold queue_init.
  destruct (Z.leb_spec c 0) as [Hle|Hgt]; cbn [orb].
  { eexists. split; [done|]. cbn. split_and!; [|eauto|done].
    split; [auto|done]. }
  rewrite Z.gtb_ltb. destruct (Z.ltb_spec 20 c) as [Hbig|Hsmall].
  { eexists. split; [done|]. cbn. split_and!; [|eauto|done].
    split; [intros _; right; left; lia|done]. }
  destruct P as [[] [] [] [] [] g]; cbn [negb malloc_queue_ok malloc_items_ok
    mutex_init_ok not_full_init_ok not_empty_init_ok heap_garbage];
    (eexists; split; [vm_compute; reflexivity|]); cbn;
    (split_and!; [|first [done|eauto]..]);
    (split; [try done|]); try (intros _; tauto);
    intros [|[|[|[|[|[|]]]]]]; done || lia.
Qed.

Lemma fresh_queue_wf P c : 1 <= c <= 20 → wf (fresh_queue P c).
Proof.
  intros Hc. split; cbn; try lia.
  - rewrite length_fmap, length_seq. lia.
  - rewrite Z.mod_0_l by lia. done.
Qed.

Lemma fresh_queue_empty P c : contents (fresh_queue P c) = [].
Proof. unfold contents. done. Qed.

Lemma queue_init_some dbg P c r q :
  queue_init dbg P c = Some r → init_queue r = Some q →
  q = fresh_queue P c ∧ 1 <= c <= 20 ∧ platform_ok P
  ∧ init_held r = all_resources.
Proof.
  intros Hr Hq. destruct (queue_init_total dbg P c) as (r' & Hr' & Hiff & _ & Hsome).
  assert (r' = r) as -> by congruence.
  destruct Hsome as (Hq' & Hheld & _); [congruence|].
  split; [congruence|]. split; [|split; [|done]].
  - destruct (decide (1 <= c <= 20)); [done|].
    assert (init_queue r = None) by (apply Hiff; lia). congruence.
  - unfold platform_ok.
    destruct (malloc_queue_ok P) eqn:?, (malloc_items_ok P) eqn:?,
      (mutex_init_ok P) eqn:?, (not_full_init_ok P) eqn:?,
      (not_empty_init_ok P) eqn:?; try done;
      assert (init_queue r = None) by (apply Hiff; tauto); congruence.
Qed.

(** ** Every outcome of one operation on a well-formed queue *)

Section Cases.

Context (dbg : bool) (q : Queue) (Hwf : wf q).

Lemma enqueue_cases flag fired item :
  ∃ o, queue_enqueue dbg flag fired (Some q) item = Some o ∧
    match o with
    | Suspended => size q = capacity q ∧ flag = 0
    | Returned ret st out =>
      (ret = -1 ∧ st = Some q ∧ out = [] ∧ flag_at_check fired flag ≠ 0)
      ∨ (ret = 0 ∧ flag = 0 ∧ fired = false
         ∧ out = debug dbg (DbgEnqueued item (size q + 1) (capacity q))
         ∧ ∃ q', st = Some q' ∧ wf q' ∧ capacity q' = capacity q
             ∧ head q' = head q ∧ step_post q q' (Enqueued item))
    end.
Proof.
  destruct (decide (flag_at_check fired flag = 0)) as [Hchk|Hchk].
  - assert (flag = 0 ∧ fired = false) as [-> ->].
    { destruct fired; cbn in Hchk; [done|by split]. }
    destruct (decide (size q = capacity q)) as [Hfull|Hroom].
    + eexists. split; [by apply enqueue_suspends|]. done.
    + pose proof (wf_size q Hwf).
      destruct (enqueue_succeeds dbg q Hwf item)
        as (q' & -> & Hwf' & Hcap & Hhd & Hsz & Hcont); [lia|].
      eexists. split; [done|]. right. split_and!; try done.
      exists q'. unfold step_post. split_and!; done || lia.
  - destruct (decide (size q = capacity q ∧ flag = 0)) as [[Hfull ->]|Hloop].
    + eexists. split; [by apply enqueue_suspends|]. done.
    + eexists. split; [apply enqueue_cancelled; [done|]|].
      * destruct (decide (size q = capacity q)); [|by left]. right. tauto.
      * left. done.
Qed.

Lemma dequeue_cases flag fired cell :
  ∃ o, queue_dequeue dbg flag fired (Some q) (Some cell) = Some o ∧
    match o with
    | Suspended => size q = 0 ∧ flag = 0
    | Returned ret st out =>
      (ret = -1 ∧ st = (Some q, Some cell) ∧ out = []
       ∧ flag_at_check fired flag ≠ 0)
      ∨ (ret = 0 ∧ flag = 0 ∧ fired = false
         ∧ ∃ q' x, st = (Some q', Some x)
             ∧ out = debug dbg (DbgDequeued x (size q - 1) (capacity q))
             ∧ wf q' ∧ capacity q' = capacity q
             ∧ step_post q q' (Dequeued x))
    end.
Proof.
  destruct (decide (flag_at_check fired flag = 0)) as [Hchk|Hchk].
  - assert (flag = 0 ∧ fired = false) as [-> ->].
    { destruct fired; cbn in Hchk; [done|by split]. }
    destruct (decide (size q = 0)) as [Hempty|Hsome].
    + eexists. split; [by apply dequeue_suspends|]. done.
    + pose proof (wf_size q Hwf).
      destruct (dequeue_succeeds dbg q Hwf cell)
        as (k & x & q' & -> & _ & Hsel & Hwf' & Hcap & Hsz & Hcont & _);
        [lia|].
      eexists. split; [done|]. right. split_and!; try done.
      exists q', x. unfold step_post. split_and!; try (done || lia).
      by exists k.
  - destruct (decide (size q = 0 ∧ flag = 0)) as [[Hempty ->]|Hloop].
    + eexists. split; [by apply dequeue_suspends|]. done.
    + eexists. split; [apply dequeue_cancelled; [done|]|].
      * destruct (decide (size q = 0)); [|by left]. right. tauto.
      * left. done.
Qed.

End Cases.

(** ** Sequences of operations *)

Section RunLemmas.

Context (dbg : bool).

Lemma step_spec w op :
  wf (w_queue w) →
  ∃ w' o, step dbg w op = Some (w', o)
    ∧ wf (w_queue w') ∧ capacity (w_queue w') = capacity (w_queue w)
    ∧ step_post (w_queue w) (w_queue w') o.
Proof.
  intros Hwf. destruct op as [item fired|cell fired|]; cbn [step].
  - destruct (enqueue_cases dbg _ Hwf (w_flag w) fired item) as (o & -> & Ho).
    cbn [mbind option_bind]. destruct o as [|ret st out].
    + exists w, Waiting. done.
    + destruct Ho as [(-> & -> & _)|(-> & _ & _ & _ & q' & -> & ? & ? & _ & ?)].
      * eexists _, _. split; [done|]. done.
      * eexists _, _. split; [done|]. done.
  - destruct (dequeue_cases dbg _ Hwf (w_flag w) fired cell) as (o & -> & Ho).
    cbn [mbind option_bind]. destruct o as [|ret st out].
    + exists w, Waiting. done.
    + destruct Ho as [(-> & -> & _)|(-> & _ & _ & q' & x & -> & _ & ? & ? & ?)].
      * eexists _, _. split; [done|]. done.
      * eexists _, _. split; [done|]. done.
  - eexists _, _. split; [done|]. done.
Qed.

Lemma final_cons w o w1 rest : final w ((o, w1) :: rest) = final w1 rest.
Proof. unfold final. rewrite last_cons. by destruct (last rest). Qed.

Lemma step_post_conserves (q q' : Queue) o enq deq rest :
  step_post q q' o →
  contents q' ++ enq ≡ₚ deq ++ rest →
  contents q ++ match o with Enqueued x => x :: enq | _ => enq end
  ≡ₚ match o with Dequeued x => x :: deq | _ => deq end ++ rest.
Proof.
  destruct o as [x|x| | |]; cbn [step_post].
  - intros (_ & _ & Hc) IH. rewrite Hc in IH.
    by rewrite <- (assoc_L (++)) in IH.
  - intros (_ & _ & k & (Hk & _) & Hc) IH. rewrite Hc in IH.
    rewrite (delete_Permutation _ _ _ Hk). cbn. by rewrite IH.
  - by intros ->.
  - by intros ->.
  - by intros ->.
Qed.

Lemma run_spec ops : ∀ w,
  wf (w_queue w) →
  ∃ tr, run dbg w ops = Some tr
    ∧ length tr = length ops
    ∧ Forall (λ ow, wf (w_queue ow.2)
                    ∧ capacity (w_queue ow.2) = capacity (w_queue w)) tr
    ∧ contents (w_queue w) ++ enqueued_items tr
      ≡ₚ dequeued_items tr ++ contents (w_queue (final w tr)).
Proof.
  induction ops as [|op ops IH]; intros w Hwf.
  - exists []. split_and!; [done|done|constructor|].
    cbn. by rewrite app_nil_r.
  - destruct (step_spec w op Hwf) as (w1 & o & Hstep & Hwf1 & Hcap1 & Hpost).
    destruct (IH w1 Hwf1) as (rest & Hrun & Hlen & Hall & Hperm).
    exists ((o, w1) :: rest). split_and!.
    + cbn [run]. rewrite Hstep. cbn [mbind option_bind]. by rewrite Hrun.
    + cbn. by rewrite Hlen.
    + constructor; [done|].
      eapply Forall_impl; [exact Hall|]. cbn. intros ? [??]. split; [done|lia].
    + rewrite final_cons.
      pose proof (step_post_conserves _ _ _ _ _ _ Hpost Hperm) as Hc.
      unfold enqueued_items, dequeued_items. cbn [omap fst].
      fold (enqueued_items rest). fold (dequeued_items rest).
      destruct o; exact Hc.
Qed.

End RunLemmas.

(** ** One successful step, on the world *)

Section Steps.

Context (dbg : bool) (q : Queue) (Hwf : wf q).

Lemma step_enqueue_ok x :
  size q < capacity q →
  ∃ q', step dbg (mkWorld q 0) (Enqueue x false)
        = Some (mkWorld q' 0, Enqueued x)
    ∧ wf q' ∧ capacity q' = capacity q ∧ size q' = size q + 1
    ∧ contents q' = contents q ++ [x].
Proof.
  intros Hroom.
  destruct (enqueue_succeeds dbg q Hwf x Hroom)
    as (q' & Heq & ? & ? & ? & ? & ?).
  exists q'. cbn [step w_flag w_queue]. rewrite Heq. done.
Qed.

Lemma step_dequeue_ok cell :
  0 < size q →
  ∃ q' k x, step dbg (mkWorld q 0) (Dequeue cell false)
            = Some (mkWorld q' 0, Dequeued x)
    ∧ wf q' ∧ capacity q' = capacity q ∧ size q' = size q - 1
    ∧ selects (contents q) k x ∧ contents q' = delete k (contents q).
Proof.
  intros Hpos.
  destruct (dequeue_succeeds dbg q Hwf cell Hpos)
    as (k & x & q' & Heq & _ & ? & ? & ? & ? & ? & _).
  exists q', k, x. cbn [step w_flag w_queue]. rewrite Heq. done.
Qed.

End Steps.

(** Deciding [selects] on a short explicit list. *)
Ltac solve_selects :=
  split_and!;
  [ reflexivity
  | intros [|[|[|?]]] y [= <-]; lia
  | intros [|[|[|?]]] y ? [= <-]; lia ].

Lemma selects_CAB a b c :
  priority a = 3 → priority b = 3 → priority c = 5 →
  selects [a; b; c] 2 c ∧ selects [a; b] 0 a ∧ selects [b] 0 b.
Proof. intros Ha Hb Hc. split_and!; solve_selects. Qed.

(** * The claims *)

(** C1. On every non-empty queue, dequeue returns the item at the position
    the scan selects: an occupied slot whose priority is maximal, and the
    earliest-arrived among those of maximal priority.  In particular A, B
    (priority 3) and C (priority 5), inserted in this order into an empty
    queue, come out as C, A, B. *)
Theorem dequeue_highest_priority_fifo :
  (∀ dbg q cell, wf q → 0 < size q →
     ∃ k x q',
       queue_dequeue dbg 0 false (Some q) (Some cell)
       = Some (Returned 0 (Some q', Some x)
                 (debug dbg (DbgDequeued x (size q - 1) (capacity q))))
       ∧ find_highest_priority_index q = Some (slot q k)
       ∧ (k < Z.to_nat (size q))%nat
       ∧ contents q !! k = Some x
       ∧ (∀ j y, contents q !! j = Some y → priority y <= priority x)
       ∧ (∀ j y, (j < k)%nat → contents q !! j = Some y →
            priority y < priority x))
  ∧ (∀ dbg q0 a b c c1 c2 c3,
       wf q0 → size q0 = 0 → 3 <= capacity q0 →
       priority a = 3 → priority b = 3 → priority c = 5 →
       ∃ tr, run dbg (mkWorld q0 0)
               [Enqueue a false; Enqueue b false; Enqueue c false;
                Dequeue c1 false; Dequeue c2 false; Dequeue c3 false]
             = Some tr
         ∧ tr.*1 = [Enqueued a; Enqueued b; Enqueued c;
                    Dequeued c; Dequeued a; Dequeued b]).
Proof.
  split.
  - intros dbg q cell Hwf Hpos.
    destruct (dequeue_succeeds dbg q Hwf cell Hpos)
      as (k & x & q' & Heq & Hfind & Hsel & _).
    pose proof (selects_lt q Hwf k x Hsel).
    destruct Hsel as (Hk & Hmax & Hfst).
    exists k, x, q'. done.
  - intros dbg q0 a b c c1 c2 c3 Hwf0 Hsz0 Hcap Ha Hb Hc.
    destruct (selects_CAB a b c Ha Hb Hc) as (S3 & S2 & S1).
    assert (Hc0 : contents q0 = []).
    { apply length_zero_iff_nil. rewrite contents_length by done. lia. }
    destruct (step_enqueue_ok dbg q0 Hwf0 a) as (q1 & E1 & W1 & C1 & Z1 & L1);
      [lia|].
    destruct (step_enqueue_ok dbg q1 W1 b) as (q2 & E2 & W2 & C2 & Z2 & L2);
      [lia|].
    destruct (step_enqueue_ok dbg q2 W2 c) as (q3 & E3 & W3 & C3 & Z3 & L3);
      [lia|].
    rewrite L2, L1, Hc0 in L3. cbn [app] in L3.
    destruct (step_dequeue_ok dbg q3 W3 c1)
      as (q4 & k4 & x4 & E4 & W4 & C4 & Z4 & Sel4 & L4); [lia|].
    rewrite L3 in Sel4, L4.
    destruct (selects_unique _ _ _ _ _ Sel4 S3) as [-> ->]. cbn in L4.
    destruct (step_dequeue_ok dbg q4 W4 c2)
      as (q5 & k5 & x5 & E5 & W5 & C5 & Z5 & Sel5 & L5); [lia|].
    rewrite L4 in Sel5, L5.
    destruct (selects_unique _ _ _ _ _ Sel5 S2) as [-> ->]. cbn in L5.
    destruct (step_dequeue_ok dbg q5 W5 c3)
      as (q6 & k6 & x6 & E6 & W6 & C6 & Z6 & Sel6 & L6); [lia|].
    rewrite L5 in Sel6.
    destruct (selects_unique _ _ _ _ _ Sel6 S1) as [-> ->].
    eexists. cbn [run].
    rewrite E1; cbn [mbind option_bind]. rewrite E2; cbn [mbind option_bind].
    rewrite E3; cbn [mbind option_bind]. rewrite E4; cbn [mbind option_bind].
    rewrite E5; cbn [mbind option_bind]. rewrite E6; cbn [mbind option_bind].
    split; reflexivity.
Qed.

Lemma sample_queue_wf : wf sample_queue.
Proof. split; cbn; lia || reflexivity. Defined.

Lemma fresh_queue_4_wf : wf (fresh_queue good_platform 4).
Proof. split; cbn; lia || reflexivity. Defined.

Lemma dequeue_highest_priority_fifo_witness :
  (wf sample_queue ∧ 0 < size sample_queue
   ∧ ∃ k x q',
       queue_dequeue false 0 false (Some sample_queue) (Some zero_item)
       = Some (Returned 0 (Some q', Some x)
                 (debug false (DbgDequeued x (size sample_queue - 1)
                                 (capacity sample_queue))))
       ∧ find_highest_priority_index sample_queue
         = Some (slot sample_queue k)
       ∧ (k < Z.to_nat (size sample_queue))%nat
       ∧ contents sample_queue !! k = Some x
       ∧ (∀ j y, contents sample_queue !! j = Some y →
            priority y <= priority x)
       ∧ (∀ j y, (j < k)%nat → contents sample_queue !! j = Some y →
            priority y < priority x))
  ∧ (wf (fresh_queue good_platform 4)
     ∧ ∃ tr, run false (mkWorld (fresh_queue good_platform 4) 0)
               [Enqueue item_A false; Enqueue item_B false;
                Enqueue item_C false; Dequeue zero_item false;
                Dequeue zero_item false; Dequeue zero_item false]
             = Some tr
         ∧ tr.*1 = [Enqueued item_A; Enqueued item_B; Enqueued item_C;
                    Dequeued item_C; Dequeued item_A; Dequeued item_B]).
Proof.
  split.
  - split; [exact sample_queue_wf|]. split; [reflexivity|].
    apply (proj1 dequeue_highest_priority_fifo false sample_queue zero_item);
      [exact sample_queue_wf|reflexivity].
  - split; [exact fresh_queue_4_wf|].
    apply (proj2 dequeue_highest_priority_fifo false
             (fresh_queue good_platform 4) item_A item_B item_C
             zero_item zero_item zero_item);
      [exact fresh_queue_4_wf|reflexivity|cbn; lia|reflexivity..].
Defined.

(** C2. On every non-empty queue, if the selected slot is the logical head
    the removal advances [head] by one (modulo the capacity) and leaves
    the array and [tail] alone; otherwise it moves every slot between the
    selected one and the logical tail back by one position, leaves every
    other cell alone and retreats [tail].  Either way the remaining items,
    read from head to tail, are the previous sequence with the selected
    item deleted. *)
Theorem dequeue_removal_preserves_order dbg q cell :
  wf q → 0 < size q →
  ∃ k x q',
    queue_dequeue dbg 0 false (Some q) (Some cell)
    = Some (Returned 0 (Some q', Some x)
              (debug dbg (DbgDequeued x (size q - 1) (capacity q))))
    ∧ find_highest_priority_index q = Some (slot q k)
    ∧ contents q !! k = Some x
    ∧ (slot q k = head q →
         head q' = (head q + 1) `mod` capacity q ∧ tail q' = tail q
         ∧ items q' = items q)
    ∧ (slot q k ≠ head q →
         head q' = head q
         ∧ tail q' = (tail q - 1 + capacity q) `mod` capacity q
         ∧ (∀ j, (k <= j < Z.to_nat (size q) - 1)%nat →
              load (items q') (slot q j) = load (items q) (slot q (S j)))
         ∧ (∀ i, (∀ j, (k <= j < Z.to_nat (size q) - 1)%nat → i ≠ slot q j) →
              load (items q') i = load (items q) i))
    ∧ size q' = size q - 1 ∧ capacity q' = capacity q
    ∧ contents q' = delete k (contents q).
Proof.
  intros Hwf Hpos.
  destruct (dequeue_succeeds dbg q Hwf cell Hpos)
    as (k & x & q' & Heq & Hfind & (Hk & _) & _ & Hcap & Hsz & Hcont
        & Hhead & Hmid).
  exists k, x, q'. done.
Qed.

Lemma dequeue_removal_preserves_order_witness :
  wf sample_queue ∧ 0 < size sample_queue
  ∧ ∃ k x q',
    queue_dequeue false 0 false (Some sample_queue) (Some zero_item)
    = Some (Returned 0 (Some q', Some x)
              (debug false (DbgDequeued x (size sample_queue - 1)
                              (capacity sample_queue))))
    ∧ find_highest_priority_index sample_queue = Some (slot sample_queue k)
    ∧ contents sample_queue !! k = Some x
    ∧ (slot sample_queue k = head sample_queue →
         head q' = (head sample_queue + 1) `mod` capacity sample_queue
         ∧ tail q' = tail sample_queue
         ∧ items q' = items sample_queue)
    ∧ (slot sample_queue k ≠ head sample_queue →
         head q' = head sample_queue
         ∧ tail q' = (tail sample_queue - 1 + capacity sample_queue)
                     `mod` capacity sample_queue
         ∧ (∀ j, (k <= j < Z.to_nat (size sample_queue) - 1)%nat →
              load (items q') (slot sample_queue j)
              = load (items sample_queue) (slot sample_queue (S j)))
         ∧ (∀ i, (∀ j, (k <= j < Z.to_nat (size sample_queue) - 1)%nat →
                    i ≠ slot sample_queue j) →
              load (items q') i = load (items sample_queue) i))
    ∧ size q' = size sample_queue - 1
    ∧ capacity q' = capacity sample_queue
    ∧ contents q' = delete k (contents sample_queue).
Proof.
  split; [exact sample_queue_wf|]. split; [reflexivity|].
  apply (dequeue_removal_preserves_order false sample_queue zero_item);
    [exact sample_queue_wf|reflexivity].
Defined.

(** Both removal paths occur: from [sample_queue] (A, C, B stored from
    slot 3 on) the first dequeue takes C out of the middle and moves B
    back by one slot, the second advances the head past A. *)
Example sample_queue_dequeues :
  run false (mkWorld sample_queue 0)
    [Dequeue zero_item false; Dequeue zero_item false]
  = Some [(Dequeued item_C,
           mkWorld (mkQueue [item_B; item_B; zero_item; item_A] 4 2 3 1) 0);
          (Dequeued item_A,
           mkWorld (mkQueue [item_B; item_B; zero_item; item_A] 4 1 0 1) 0)].
Proof. vm_compute. reflexivity. Qed.

Lemma step_counts dbg w op w' o :
  wf (w_queue w) → step dbg w op = Some (w', o) →
  count_change (w_queue w) (w_queue w') o.
Proof.
  intros Hwf Hstep.
  destruct (step_spec dbg w op Hwf) as (w1 & o1 & Hstep1 & _ & _ & Hpost).
  assert (w1 = w' ∧ o1 = o) as [-> ->] by (split; congruence).
  destruct o; cbn in *; try (by rewrite Hpost); tauto.
Qed.

(** C3. From a freshly initialised queue of capacity [c] (then [c > 0]),
    every sequence of operations runs, and after each of them the count is
    between 0 and [c]; from the initial and from every visited state, an
    enqueue succeeds only when the count is below [c] and then increments
    it, a dequeue succeeds only when the count is positive and then
    decrements it, and nothing else changes it. *)
Theorem capacity_invariant dbg P c r q0 flag ops :
  queue_init dbg P c = Some r → init_queue r = Some q0 →
  0 < c ∧ capacity q0 = c ∧ size q0 = 0
  ∧ ∃ tr, run dbg (mkWorld q0 flag) ops = Some tr
      ∧ length tr = length ops
      ∧ Forall (λ ow, capacity (w_queue ow.2) = c
                      ∧ 0 <= size (w_queue ow.2) <= c) tr
      ∧ ∀ w, w ∈ mkWorld q0 flag :: tr.*2 →
          ∀ op w' o, step dbg w op = Some (w', o) →
            count_change (w_queue w) (w_queue w') o.
Proof.
  intros Hr Hq.
  destruct (queue_init_some dbg P c r q0 Hr Hq) as (-> & Hc & _ & _).
  pose proof (fresh_queue_wf P c Hc) as Hwf0.
  split; [lia|]. split; [done|]. split; [done|].
  destruct (run_spec dbg ops (mkWorld (fresh_queue P c) flag) Hwf0)
    as (tr & Hrun & Hlen & Hall & _).
  exists tr. split_and!; [done|done| |].
  - eapply Forall_impl; [exact Hall|]. cbn. intros [o w] [Hwf Hcap].
    cbn in *. pose proof (wf_size _ Hwf). split; [done|lia].
  - intros w Hw op w' o Hstep. apply (step_counts dbg w op w' o); [|done].
    apply elem_of_cons in Hw as [->|Hw]; [done|].
    apply list_elem_of_fmap in Hw as ([o1 w1] & -> & Hin).
    rewrite Forall_forall in Hall. by destruct (Hall _ Hin).
Qed.

Lemma capacity_invariant_witness :
  queue_init false good_platform 2 = Some sample_init
  ∧ init_queue sample_init = Some (fresh_queue good_platform 2)
  ∧ 0 < 2 ∧ capacity (fresh_queue good_platform 2) = 2
  ∧ size (fresh_queue good_platform 2) = 0
  ∧ ∃ tr, run false (mkWorld (fresh_queue good_platform 2) 0) sample_ops
          = Some tr
      ∧ length tr = length sample_ops
      ∧ Forall (λ ow, capacity (w_queue ow.2) = 2
                      ∧ 0 <= size (w_queue ow.2) <= 2) tr
      ∧ ∀ w, w ∈ mkWorld (fresh_queue good_platform 2) 0 :: tr.*2 →
          ∀ op w' o, step false w op = Some (w', o) →
            count_change (w_queue w) (w_queue w') o.
Proof.
  split; [reflexivity|]. split; [reflexivity|].
  apply (capacity_invariant false good_platform 2 sample_init
           (fresh_queue good_platform 2) 0 sample_ops); reflexivity.
Defined.

(** The third enqueue of [sample_ops] meets the queue full and parks. *)
Example sample_ops_observations :
  (λ tr, (tr.*1, size ∘ w_queue <$> tr.*2))
    <$> run false (mkWorld (fresh_queue good_platform 2) 0) sample_ops
  = Some ([Enqueued item_A; Enqueued item_C; Waiting;
           Dequeued item_C; Dequeued item_A; Waiting],
          [1; 2; 2; 1; 0; 0]).
Proof. vm_compute. reflexivity. Qed.

(** C4. From a freshly initialised (empty) queue every sequence of
    operations runs, and the items handed to successful enqueues are, as a
    multiset, the items returned by successful dequeues together with the
    items still in the queue.  Hence when as many enqueues as dequeues
    succeeded the queue ends empty and the multiset of returned items
    equals the multiset of inserted items. *)
Theorem no_loss_no_duplication dbg P c r q0 flag ops :
  queue_init dbg P c = Some r → init_queue r = Some q0 →
  ∃ tr, run dbg (mkWorld q0 flag) ops = Some tr
    ∧ enqueued_items tr
      ≡ₚ dequeued_items tr ++ contents (w_queue (final (mkWorld q0 flag) tr))
    ∧ (length (enqueued_items tr) = length (dequeued_items tr) →
       size (w_queue (final (mkWorld q0 flag) tr)) = 0
       ∧ enqueued_items tr ≡ₚ dequeued_items tr).
Proof.
  intros Hr Hq.
  destruct (queue_init_some dbg P c r q0 Hr Hq) as (-> & Hc & _ & _).
  pose proof (fresh_queue_wf P c Hc) as Hwf0.
  set (w0 := mkWorld (fresh_queue P c) flag).
  destruct (run_spec dbg ops w0 Hwf0) as (tr & Hrun & Hlen & Hall & Hperm).
  cbn [w0 w_queue] in Hperm. rewrite fresh_queue_empty in Hperm.
  cbn [app] in Hperm. fold w0 in Hperm.
  exists tr. split_and!; [done|done|]. intros HK.
  assert (Hwf : wf (w_queue (final w0 tr))).
  { unfold final. destruct (last tr) as [[o w]|] eqn:Hlast; cbn; [|done].
    apply last_Some_elem_of in Hlast.
    rewrite Forall_forall in Hall. by destruct (Hall _ Hlast). }
  assert (Hnil : contents (w_queue (final w0 tr)) = []).
  { apply length_zero_iff_nil.
    apply Permutation_length in Hperm. rewrite length_app in Hperm. lia. }
  split.
  - pose proof (contents_length _ Hwf) as Hl. rewrite Hnil in Hl.
    pose proof (wf_size _ Hwf). cbn in Hl. lia.
  - by rewrite Hnil, app_nil_r in Hperm.
Qed.

Lemma no_loss_no_duplication_witness :
  queue_init false good_platform 2 = Some sample_init
  ∧ init_queue sample_init = Some (fresh_queue good_platform 2)
  ∧ ∃ tr, run false (mkWorld (fresh_queue good_platform 2) 0) sample_ops
          = Some tr
    ∧ enqueued_items tr = [item_A; item_C]
    ∧ dequeued_items tr = [item_C; item_A]
    ∧ length (enqueued_items tr) = length (dequeued_items tr)
    ∧ size (w_queue (final (mkWorld (fresh_queue good_platform 2) 0) tr)) = 0
    ∧ enqueued_items tr ≡ₚ dequeued_items tr.
Proof.
  split; [reflexivity|]. split; [reflexivity|].
  destruct (no_loss_no_duplication false good_platform 2 sample_init
              (fresh_queue good_platform 2) 0 sample_ops eq_refl eq_refl)
    as (tr & Hrun & _ & HK).
  exists tr. split; [exact Hrun|].
  vm_compute in Hrun. injection Hrun as <-.
  split; [reflexivity|]. split; [reflexivity|]. split; [reflexivity|].
  apply HK. reflexivity.
Defined.

(** C5. Whenever the cancellation flag is set, enqueue and dequeue return
    -1 at once: they do not park, print nothing, and leave the queue (its
    count, cursors and stored items) and the caller's cell unchanged, so
    the item of a cancelled enqueue is not in the queue. *)
Theorem cancelled_operations_fail_fast dbg q flag fired item cell :
  flag ≠ 0 →
  queue_enqueue dbg flag fired (Some q) item
  = Some (Returned (-1) (Some q) [])
  ∧ queue_dequeue dbg flag fired (Some q) (Some cell)
    = Some (Returned (-1) (Some q, Some cell) []).
Proof.
  intros Hset.
  assert (flag_at_check fired flag ≠ 0) by (by destruct fired).
  split.
  - apply enqueue_cancelled; [done|by right].
  - apply dequeue_cancelled; [done|by right].
Qed.

Lemma cancelled_operations_fail_fast_witness :
  1 ≠ 0
  ∧ queue_enqueue false 1 false (Some sample_queue) item_A
    = Some (Returned (-1) (Some sample_queue) [])
  ∧ queue_dequeue false 1 false (Some sample_queue) (Some zero_item)
    = Some (Returned (-1) (Some sample_queue, Some zero_item) []).
Proof.
  split; [lia|].
  apply (cancelled_operations_fail_fast false sample_queue 1 false
           item_A zero_item); lia.
Defined.

(** The flag may also be set by [timeout_handler] between the loop test
    and the check: an operation that was not parked is then cancelled in
    the same way. *)
Lemma cancelled_between_reads dbg q item cell :
  (size q ≠ capacity q →
   queue_enqueue dbg 0 true (Some q) item = Some (Returned (-1) (Some q) []))
  ∧ (size q ≠ 0 →
     queue_dequeue dbg 0 true (Some q) (Some cell)
     = Some (Returned (-1) (Some q, Some cell) [])).
Proof.
  split; intros Hne.
  - apply enqueue_cancelled; [done|by left].
  - apply dequeue_cancelled; [done|by left].
Qed.

Lemma good_platform_ok : platform_ok good_platform.
Proof. repeat split. Defined.

Lemma validate_arguments_valid MP MC np nc qs t :
  (validate_arguments MP MC np nc qs t).1 = true
  ↔ 1 <= np <= MP ∧ 1 <= nc <= MC ∧ 1 <= qs <= 20 ∧ 0 < t.
Proof.
  unfold validate_arguments. rewrite !Z.gtb_ltb.
  destruct (Z.ltb_spec np 1), (Z.ltb_spec MP np), (Z.ltb_spec nc 1),
    (Z.ltb_spec MC nc), (Z.ltb_spec qs 1), (Z.ltb_spec 20 qs),
    (Z.leb_spec t 0); cbn; split; (done || lia).
Qed.

(** C6, as stated, fails: on a platform where every acquisition succeeds,
    [queue_init 21] returns no queue. *)
Lemma queue_init_rejects_capacity_21 :
  platform_ok good_platform
  ∧ queue_init false good_platform 21
    = Some (mkInitResult None [] [Stderr (ErrInvalidCapacity 21)])
  ∧ ¬ ∃ r q, queue_init false good_platform 21 = Some r
             ∧ init_queue r = Some q.
Proof.
  split; [exact good_platform_ok|]. split; [reflexivity|].
  intros (r & q & Hr & Hq). vm_compute in Hr.
  injection Hr as <-. discriminate Hq.
Qed.

(** C6, amended. The constructor itself enforces [1 <= capacity <= 20],
    the bound that [validate_arguments] also checks on [queue_size]:
    absent resource failure, construction yields a queue exactly for the
    capacities 1 to 20, and every capacity above 20 is refused. *)
Theorem queue_init_enforces_upper_bound dbg P c :
  platform_ok P →
  ((∃ r q, queue_init dbg P c = Some r ∧ init_queue r = Some q)
   ↔ 1 <= c <= 20)
  ∧ (20 < c → ∃ r, queue_init dbg P c = Some r ∧ init_queue r = None)
  ∧ (∀ MP MC np nc t,
       (validate_arguments MP MC np nc c t).1 = true → 1 <= c <= 20).
Proof.
  intros (H1 & H2 & H3 & H4 & H5).
  destruct (queue_init_total dbg P c) as (r & Hr & Hiff & _ & Hsome).
  split_and!.
  - split.
    + intros (r' & q & Hr' & Hq). by destruct (queue_init_some _ _ _ _ _ Hr' Hq) as (_ & ? & _).
    + intros Hc. destruct (init_queue r) as [q|] eqn:Hq.
      * by exists r, q.
      * exfalso.
        destruct (proj1 Hiff eq_refl) as [|[|[|[|[|[|]]]]]];
          congruence || lia.
  - intros Hbig. exists r. split; [done|]. apply Hiff. lia.
  - intros MP MC np nc t Hv. apply validate_arguments_valid in Hv. tauto.
Qed.

Lemma queue_init_enforces_upper_bound_witness :
  platform_ok good_platform
  ∧ (1 <= 20 <= 20
     ∧ ∃ r q, queue_init false good_platform 20 = Some r
              ∧ init_queue r = Some q)
  ∧ (20 < 21
     ∧ ∃ r, queue_init false good_platform 21 = Some r ∧ init_queue r = None)
  ∧ ((validate_arguments 8 8 5 3 20 30).1 = true ∧ 1 <= 20 <= 20).
Proof.
  split; [exact good_platform_ok|]. split; [|split].
  - split; [lia|].
    apply (proj1 (queue_init_enforces_upper_bound false good_platform 20
                    good_platform_ok)). lia.
  - split; [lia|].
    apply (proj1 (proj2 (queue_init_enforces_upper_bound false good_platform
                           21 good_platform_ok))). lia.
  - split; [reflexivity|].
    apply (proj2 (proj2 (queue_init_enforces_upper_bound false good_platform
                           20 good_platform_ok)) 8 8 5 3 30).
    reflexivity.
Defined.

(** C7. [queue_init] always returns; it returns no queue exactly when the
    capacity is not positive, or exceeds the maximum of 20, or one of the
    five acquisitions (two allocations, the mutex, the two condition
    variables) fails.  On every failure nothing acquired is still held; a
    returned queue is fully initialised (all five resources held, array
    of [capacity] cells, count and both cursors 0). *)
Theorem queue_init_failure_releases_everything dbg P c :
  ∃ r, queue_init dbg P c = Some r
    ∧ (init_queue r = None ↔
         c <= 0 ∨ c > 20 ∨ malloc_queue_ok P = false
         ∨ malloc_items_ok P = false ∨ mutex_init_ok P = false
         ∨ not_full_init_ok P = false ∨ not_empty_init_ok P = false)
    ∧ (init_queue r = None → init_held r = [])
    ∧ (∀ q, init_queue r = Some q →
         init_held r = all_resources
         ∧ wf q ∧ capacity q = c ∧ Z.of_nat (length (items q)) = c
         ∧ size q = 0 ∧ head q = 0 ∧ tail q = 0).
Proof.
  destruct (queue_init_total dbg P c) as (r & Hr & Hiff & Hnone & _).
  exists r. split_and!; [done|done|by intros [? _]%Hnone|].
  intros q Hq.
  destruct (queue_init_some dbg P c r q Hr Hq) as (-> & Hc & _ & Hheld).
  pose proof (fresh_queue_wf P c Hc) as Hwf.
  split_and!; try done. apply (wf_items _ Hwf).
Qed.

Lemma queue_init_failure_releases_everything_witness :
  ∃ r, queue_init false failing_platform 4 = Some r
    ∧ not_empty_init_ok failing_platform = false
    ∧ init_queue r = None ∧ init_held r = [].
Proof.
  destruct (queue_init_failure_releases_everything false failing_platform 4)
    as (r & Hr & Hiff & Hrel & _).
  exists r. split; [exact Hr|]. split; [reflexivity|].
  assert (Hnone : init_queue r = None).
  { apply Hiff. do 6 right. reflexivity. }
  split; [exact Hnone|exact (Hrel Hnone)].
Defined.

(** Each failure path, on a capacity-4 request: what is printed and that
    nothing stays held. *)
Example queue_init_failure_paths :
  queue_init false (mkPlatform false true true true true (λ _, zero_item)) 4
  = Some (mkInitResult None [] [Stderr ErrAllocQueue])
  ∧ queue_init false (mkPlatform true false true true true (λ _, zero_item)) 4
    = Some (mkInitResult None [] [Stderr ErrAllocItems])
  ∧ queue_init false (mkPlatform true true false true true (λ _, zero_item)) 4
    = Some (mkInitResult None [] [Stderr ErrMutexInit])
  ∧ queue_init false (mkPlatform true true true false true (λ _, zero_item)) 4
    = Some (mkInitResult None [] [Stderr ErrNotFullInit])
  ∧ queue_init false (mkPlatform true true true true false (λ _, zero_item)) 4
    = Some (mkInitResult None [] [Stderr ErrNotEmptyInit]).
Proof. split_and!; vm_compute; reflexivity. Qed.

(** C8, as stated, fails: a refused construction prints an error line on
    stderr, whatever [DEBUG_MODE] is. *)
Lemma queue_init_prints_on_failure :
  ¬ (∀ dbg P c r, queue_init dbg P c = Some r → init_out r = [])
  ∧ queue_init false good_platform 0
    = Some (mkInitResult None [] [Stderr (ErrInvalidCapacity 0)]).
Proof.
  split; [|reflexivity].
  intros H. specialize (H false good_platform 0 _ eq_refl). discriminate H.
Qed.

(** C8, amended. The queue functions print exactly this: a failing
    construction one error line on stderr; enqueue with a NULL queue and
    dequeue with a NULL queue or cell one error line on stderr; and, only
    when [DEBUG_MODE] is on, one trace line on stdout for a successful
    construction, enqueue or dequeue and two for a destruction.  A
    cancelled or parked enqueue/dequeue, [queue_get_size], and (with
    [DEBUG_MODE] off) every call on non-NULL arguments that does not fail
    in construction print nothing. *)
Theorem queue_output dbg :
  (∀ m, debug dbg m = if dbg then [Stdout m] else [])
  ∧ (∀ P c, ∃ r, queue_init dbg P c = Some r
       ∧ (init_queue r = None → ∃ m, init_out r = [Stderr m])
       ∧ (init_queue r ≠ None → init_out r = debug dbg (DbgInitialized c)))
  ∧ (∀ flag fired item,
       queue_enqueue dbg flag fired None item
       = Some (Returned (-1) None [Stderr ErrEnqueueNull]))
  ∧ (∀ flag fired q cell, q = None ∨ cell = None →
       queue_dequeue dbg flag fired q cell
       = Some (Returned (-1) (q, cell) [Stderr ErrDequeueNull]))
  ∧ (∀ q flag fired item, wf q →
       ∃ o, queue_enqueue dbg flag fired (Some q) item = Some o
         ∧ match o with
           | Suspended => True
           | Returned ret _ out =>
             (ret = -1 ∧ out = [])
             ∨ (ret = 0
                ∧ out = debug dbg (DbgEnqueued item (size q + 1) (capacity q)))
           end)
  ∧ (∀ q flag fired cell, wf q →
       ∃ o, queue_dequeue dbg flag fired (Some q) (Some cell) = Some o
         ∧ match o with
           | Suspended => True
           | Returned ret st out =>
             (ret = -1 ∧ out = [])
             ∨ (ret = 0 ∧ ∃ x, st.2 = Some x
                ∧ out = debug dbg (DbgDequeued x (size q - 1) (capacity q)))
           end)
  ∧ (∀ q, (queue_get_size q).2 = [])
  ∧ (∀ q held r, queue_destroy dbg q held = Some r →
       r.2 = match q with
             | None => []
             | Some _ => debug dbg DbgDestroying ++ debug dbg DbgReleased
             end).
Proof.
  split_and!.
  - done.
  - intros P c.
    destruct (queue_init_total dbg P c) as (r & Hr & _ & Hnone & Hsome).
    exists r. split_and!; [done|by intros [_ ?]%Hnone|by intros (_ & _ & ?)%Hsome].
  - done.
  - intros flag fired q cell [->| ->]; [done|by destruct q].
  - intros q flag fired item Hwf.
    destruct (enqueue_cases dbg q Hwf flag fired item) as (o & Ho & Hcase).
    exists o. split; [done|]. destruct o as [|ret st out]; [done|].
    destruct Hcase as [(? & _ & ? & _)|(? & _ & _ & ? & _)]; [by left|by right].
  - intros q flag fired cell Hwf.
    destruct (dequeue_cases dbg q Hwf flag fired cell) as (o & Ho & Hcase).
    exists o. split; [done|]. destruct o as [|ret st out]; [done|].
    destruct Hcase as [(? & _ & ? & _)|(? & _ & _ & q' & x & -> & ? & _)];
      [by left|right]. split; [done|]. by exists x.
  - done.
  - intros q held r. destruct q as [q|]; cbn [queue_destroy].
    + intros Hr.
      repeat (match type of Hr with
              | context [release ?x ?h] =>
                destruct (release x h); cbn [mbind option_bind] in Hr;
                [|discriminate Hr]
              end).
      by injection Hr as <-.
    + by intros [= <-].
Qed.

Lemma queue_output_witness :
  wf sample_queue
  ∧ (∃ o, queue_enqueue true 0 false (Some sample_queue) item_A = Some o
       ∧ match o with
         | Suspended => True
         | Returned ret _ out =>
           (ret = -1 ∧ out = [])
           ∨ (ret = 0
              ∧ out = debug true (DbgEnqueued item_A (size sample_queue + 1)
                                    (capacity sample_queue)))
         end)
  ∧ (∃ o, queue_dequeue false 0 false (Some sample_queue) (Some zero_item)
          = Some o
       ∧ match o with
         | Suspended => True
         | Returned ret st out =>
           (ret = -1 ∧ out = [])
           ∨ (ret = 0 ∧ ∃ x, st.2 = Some x
              ∧ out = debug false (DbgDequeued x (size sample_queue - 1)
                                     (capacity sample_queue)))
         end)
  ∧ queue_destroy true (Some sample_queue) all_resources
    = Some ([], [Stdout DbgDestroying; Stdout DbgReleased])
  ∧ ([] : list Resource, [Stdout DbgDestroying; Stdout DbgReleased]).2
    = debug true DbgDestroying ++ debug true DbgReleased.
Proof.
  split; [exact sample_queue_wf|]. split_and!.
  - apply (proj1 (proj2 (proj2 (proj2 (proj2 (queue_output true)))))
             sample_queue 0 false item_A).
    exact sample_queue_wf.
  - apply (proj1 (proj2 (proj2 (proj2 (proj2 (proj2 (queue_output false))))))
             sample_queue 0 false zero_item).
    exact sample_queue_wf.
  - reflexivity.
  - apply (proj2 (proj2 (proj2 (proj2 (proj2 (proj2 (proj2
             (queue_output true)))))))
             (Some sample_queue) all_resources).
    reflexivity.
Defined.

(** Destruction releases everything a successful construction holds. *)
Example queue_destroy_releases :
  queue_destroy true (Some sample_queue) all_resources
  = Some ([], [Stdout DbgDestroying; Stdout DbgReleased])
  ∧ queue_destroy false (Some sample_queue) all_resources = Some ([], [])
  ∧ queue_destroy false None [] = Some ([], []).
Proof. split_and!; vm_compute; reflexivity. Qed.

Lemma wf_ring_invariant q : wf q → ring_invariant q.
Proof.
  intros Hwf. pose proof Hwf as [Hcap Hlen Hsz Hhd Htl].
  split_and!; [lia|lia| | |done|].
  - rewrite Htl. apply Z.mod_pos_bound. lia.
  - rewrite Htl. apply Z.mod_pos_bound. lia.
  - intros k Hk. by apply contents_lookup.
Qed.

(** C9. The constructor establishes, and every enqueue and every dequeue
    preserves, the ring-buffer invariant: [head] and [tail] are indices
    in [0, capacity), [tail = (head + size) mod capacity], and the [size]
    items owned by the queue sit, in arrival order, in the slots [head],
    [head + 1], ..., [head + size - 1] taken modulo the capacity. *)
Theorem ring_invariant_preserved dbg :
  (∀ P c r q, queue_init dbg P c = Some r → init_queue r = Some q →
     wf q ∧ ring_invariant q)
  ∧ (∀ q flag fired item, wf q →
       ∃ o, queue_enqueue dbg flag fired (Some q) item = Some o
         ∧ match o with
           | Suspended => True
           | Returned _ st _ =>
             ∃ q', st = Some q' ∧ capacity q' = capacity q
               ∧ wf q' ∧ ring_invariant q'
           end)
  ∧ (∀ q flag fired cell, wf q →
       ∃ o, queue_dequeue dbg flag fired (Some q) (Some cell) = Some o
         ∧ match o with
           | Suspended => True
           | Returned _ st _ =>
             ∃ q', st.1 = Some q' ∧ capacity q' = capacity q
               ∧ wf q' ∧ ring_invariant q'
           end).
Proof.
  split_and!.
  - intros P c r q Hr Hq.
    destruct (queue_init_some dbg P c r q Hr Hq) as (-> & Hc & _).
    pose proof (fresh_queue_wf P c Hc). split; [done|].
    by apply wf_ring_invariant.
  - intros q flag fired item Hwf.
    destruct (enqueue_cases dbg q Hwf flag fired item) as (o & Ho & Hcase).
    exists o. split; [done|]. destruct o as [|ret st out]; [done|].
    destruct Hcase as [(_ & -> & _)|(_ & _ & _ & _ & q' & -> & ? & ? & _)].
    + exists q. split_and!; try done. by apply wf_ring_invariant.
    + exists q'. split_and!; try done. by apply wf_ring_invariant.
  - intros q flag fired cell Hwf.
    destruct (dequeue_cases dbg q Hwf flag fired cell) as (o & Ho & Hcase).
    exists o. split; [done|]. destruct o as [|ret st out]; [done|].
    destruct Hcase as [(_ & -> & _)|(_ & _ & _ & q' & x & -> & _ & ? & ? & _)].
    + exists q. split_and!; try done. by apply wf_ring_invariant.
    + exists q'. split_and!; try done. by apply wf_ring_invariant.
Qed.

Lemma ring_invariant_preserved_witness :
  (queue_init false good_platform 2 = Some sample_init
   ∧ init_queue sample_init = Some (fresh_queue good_platform 2)
   ∧ wf (fresh_queue good_platform 2)
   ∧ ring_invariant (fresh_queue good_platform 2))
  ∧ wf sample_queue
  ∧ (∃ o, queue_enqueue false 0 false (Some sample_queue) item_A = Some o
       ∧ match o with
         | Suspended => True
         | Returned _ st _ =>
           ∃ q', st = Some q' ∧ capacity q' = capacity sample_queue
             ∧ wf q' ∧ ring_invariant q'
         end)
  ∧ (∃ o, queue_dequeue false 0 false (Some sample_queue) (Some zero_item)
          = Some o
       ∧ match o with
         | Suspended => True
         | Returned _ st _ =>
           ∃ q', st.1 = Some q' ∧ capacity q' = capacity sample_queue
             ∧ wf q' ∧ ring_invariant q'
         end).
Proof.
  split; [|split; [exact sample_queue_wf|split]].
  - split; [reflexivity|]. split; [reflexivity|].
    apply (proj1 (ring_invariant_preserved false) good_platform 2
             sample_init); reflexivity.
  - apply (proj1 (proj2 (ring_invariant_preserved false))
             sample_queue 0 false item_A).
    exact sample_queue_wf.
  - apply (proj2 (proj2 (ring_invariant_preserved false))
             sample_queue 0 false zero_item).
    exact sample_queue_wf.
Defined.

(** C10. In dequeue on a well-formed queue, once the wait loop has exited
    and the flag is unset at the check, the queue holds at least one
    item, the scan returns the in-bounds index of an occupied slot (never
    -1) and the call returns 0; consequently a dequeue on non-NULL
    arguments returns -1 only on the cancellation path, never through the
    defensive branch after the scan. *)
Theorem dequeue_defensive_branch_unreachable dbg q flag fired cell :
  wf q →
  (queue_is_empty q && (flag =? 0) = false →
   flag_at_check fired flag = 0 →
   1 <= size q
   ∧ ∃ k x, find_highest_priority_index q = Some (slot q k)
       ∧ slot q k ≠ -1 ∧ 0 <= slot q k < capacity q
       ∧ (k < Z.to_nat (size q))%nat
       ∧ load (items q) (slot q k) = Some x
       ∧ ∃ q' out, queue_dequeue dbg flag fired (Some q) (Some cell)
                   = Some (Returned 0 (Some q', Some x) out))
  ∧ (∀ st out,
       queue_dequeue dbg flag fired (Some q) (Some cell)
       = Some (Returned (-1) st out) →
       flag_at_check fired flag ≠ 0).
Proof.
  intros Hwf. split.
  - intros Hloop Hchk.
    assert (flag = 0 ∧ fired = false) as [-> ->].
    { destruct fired; cbn in Hchk; [done|by split]. }
    pose proof (wf_size q Hwf) as Hsz.
    unfold queue_is_empty in Hloop. rewrite andb_true_r in Hloop.
    apply Z.eqb_neq in Hloop.
    split; [lia|].
    destruct (dequeue_succeeds dbg q Hwf cell)
      as (k & x & q' & Heq & Hfind & Hsel & _); [lia|].
    pose proof (selects_lt q Hwf k x Hsel) as Hk.
    pose proof (slot_range q Hwf k) as Hrange.
    destruct Hsel as (Hx & _).
    exists k, x. split_and!; try (done || lia).
    + by rewrite <- contents_lookup.
    + by eexists _, _.
  - intros st out Heq.
    destruct (dequeue_cases dbg q Hwf flag fired cell) as (o & Ho & Hcase).
    rewrite Heq in Ho. injection Ho as <-.
    destruct Hcase as [(_ & _ & _ & ?)|(? & _)]; [done|lia].
Qed.

Lemma dequeue_defensive_branch_unreachable_witness :
  wf sample_queue
  ∧ (queue_is_empty sample_queue && (0 =? 0) = false
     ∧ flag_at_check false 0 = 0
     ∧ 1 <= size sample_queue
     ∧ ∃ k x, find_highest_priority_index sample_queue
              = Some (slot sample_queue k)
         ∧ slot sample_queue k ≠ -1
         ∧ 0 <= slot sample_queue k < capacity sample_queue
         ∧ (k < Z.to_nat (size sample_queue))%nat
         ∧ load (items sample_queue) (slot sample_queue k) = Some x
         ∧ ∃ q' out,
             queue_dequeue false 0 false (Some sample_queue) (Some zero_item)
             = Some (Returned 0 (Some q', Some x) out))
  ∧ (queue_dequeue false 0 true (Some sample_queue) (Some zero_item)
     = Some (Returned (-1) (Some sample_queue, Some zero_item) [])
     ∧ flag_at_check true 0 ≠ 0).
Proof.
  split; [exact sample_queue_wf|]. split.
  - split; [reflexivity|]. split; [reflexivity|].
    apply (proj1 (dequeue_defensive_branch_unreachable false sample_queue 0
                    false zero_item sample_queue_wf)); reflexivity.
  - split; [reflexivity|].
    apply (proj2 (dequeue_defensive_branch_unreachable false sample_queue 0
                    true zero_item sample_queue_wf)
             (Some sample_queue, Some zero_item) []).
    reflexivity.
Defined.

(** * Further properties of the queue *)

Lemma run_final_wf dbg w ops tr :
  wf (w_queue w) → run dbg w ops = Some tr → wf (w_queue (final w tr)).
Proof.
  intros Hwf Hrun.
  destruct (run_spec dbg ops w Hwf) as (tr' & Hrun' & _ & Hall & _).
  assert (tr' = tr) as -> by congruence.
  unfold final. destruct (last tr) as [[o w']|] eqn:Hlast; cbn; [|done].
  apply last_Some_elem_of in Hlast.
  rewrite Forall_forall in Hall. by destruct (Hall _ Hlast).
Qed.

(** X1. Construction and destruction pair up: destroying the queue that
    a successful [queue_init] returned releases all five resources;
    destroying NULL touches nothing; destroying a queue whose resources
    were already released is undefined (a double free). *)
Theorem queue_init_destroy_releases dbg P c r q :
  queue_init dbg P c = Some r → init_queue r = Some q →
  queue_destroy dbg (Some q) (init_held r)
  = Some ([], debug dbg DbgDestroying ++ debug dbg DbgReleased)
  ∧ (∀ held, queue_destroy dbg None held = Some (held, []))
  ∧ queue_destroy dbg (Some q) [] = None.
Proof.
  intros Hr Hq.
  destruct (queue_init_some dbg P c r q Hr Hq) as (_ & _ & _ & ->).
  split_and!; [vm_compute; by destruct dbg|done|done].
Qed.

Lemma queue_init_destroy_releases_witness :
  queue_init true good_platform 2
  = Some (mkInitResult (Some (fresh_queue good_platform 2)) all_resources
            [Stdout (DbgInitialized 2)])
  ∧ queue_destroy true (Some (fresh_queue good_platform 2)) all_resources
    = Some ([], debug true DbgDestroying ++ debug true DbgReleased)
  ∧ (∀ held, queue_destroy true None held = Some (held, []))
  ∧ queue_destroy true (Some (fresh_queue good_platform 2)) [] = None.
Proof.
  split; [reflexivity|].
  apply (queue_init_destroy_releases true good_platform 2
           (mkInitResult (Some (fresh_queue good_platform 2)) all_resources
              [Stdout (DbgInitialized 2)])); reflexivity.
Defined.

(** X2. After any sequence of operations on a freshly initialised queue,
    [queue_get_size] returns the number of successful enqueues minus the
    number of successful dequeues, which is the number of items the
    queue holds. *)
Theorem queue_get_size_counts dbg P c r q0 flag ops :
  queue_init dbg P c = Some r → init_queue r = Some q0 →
  ∃ tr, run dbg (mkWorld q0 flag) ops = Some tr
    ∧ (queue_get_size (w_queue (final (mkWorld q0 flag) tr))).1
      = Z.of_nat (length (enqueued_items tr))
        - Z.of_nat (length (dequeued_items tr))
    ∧ (queue_get_size (w_queue (final (mkWorld q0 flag) tr))).1
      = Z.of_nat (length (contents (w_queue (final (mkWorld q0 flag) tr)))).
Proof.
  intros Hr Hq.
  destruct (queue_init_some dbg P c r q0 Hr Hq) as (-> & Hc & _ & _).
  pose proof (fresh_queue_wf P c Hc) as Hwf0.
  set (w0 := mkWorld (fresh_queue P c) flag).
  destruct (run_spec dbg ops w0 Hwf0) as (tr & Hrun & _ & _ & Hperm).
  pose proof (run_final_wf dbg w0 ops tr Hwf0 Hrun) as Hwf.
  cbn [w0 w_queue] in Hperm. rewrite fresh_queue_empty in Hperm.
  cbn [app] in Hperm. fold w0 in Hperm.
  apply Permutation_length in Hperm. rewrite length_app in Hperm.
  pose proof (contents_length _ Hwf) as Hl. pose proof (wf_size _ Hwf).
  exists tr. cbn [queue_get_size fst]. split_and!; [done|lia|lia].
Qed.

Lemma queue_get_size_counts_witness :
  queue_init false good_platform 2 = Some sample_init
  ∧ init_queue sample_init = Some (fresh_queue good_platform 2)
  ∧ ∃ tr, run false (mkWorld (fresh_queue good_platform 2) 0)
            [Enqueue item_A false; Enqueue item_C false;
             Dequeue zero_item false]
          = Some tr
    ∧ (queue_get_size
         (w_queue (final (mkWorld (fresh_queue good_platform 2) 0) tr))).1
      = Z.of_nat (length (enqueued_items tr))
        - Z.of_nat (length (dequeued_items tr))
    ∧ (queue_get_size
         (w_queue (final (mkWorld (fresh_queue good_platform 2) 0) tr))).1
      = Z.of_nat (length (contents
          (w_queue (final (mkWorld (fresh_queue good_platform 2) 0) tr)))).
Proof.
  split; [reflexivity|]. split; [reflexivity|].
  apply (queue_get_size_counts false good_platform 2 sample_init
           (fresh_queue good_platform 2) 0); reflexivity.
Defined.

(** ** Draining *)

Lemma selects_of_priority l k x p :
  selects l k x →
  of_priority p l
  = if decide (priority x = p) then x :: of_priority p (delete k l)
    else of_priority p (delete k l).
Proof.
  intros (Hk & _ & Hfst).
  rewrite <- (take_drop_middle l k x Hk) at 1.
  rewrite delete_take_drop. unfold of_priority.
  rewrite !filter_app, filter_cons.
  destruct (decide (priority x = p)) as [Hp|Hp]; [|done].
  replace (filter (λ y, priority y = p) (take k l)) with (@nil QueueItem);
    [done|].
  symmetry.
  assert (HF : Forall (λ y, priority y ≠ p) (take k l)).
  { apply Forall_lookup. intros j y Hj.
    apply lookup_take_Some in Hj as [Hj Hlt].
    pose proof (Hfst j y Hlt Hj). lia. }
  induction HF as [|y t Hy _ IH]; [done|].
  by rewrite filter_cons_False.
Qed.

Lemma selects_max_elem (l : list QueueItem) k x y :
  selects l k x → y ∈ l → priority y <= priority x.
Proof.
  intros (_ & Hmax & _) [j Hj]%list_elem_of_lookup. by apply (Hmax j).
Qed.

(** X3. Draining a queue of [n] items with [n] dequeues (no enqueue in
    between, flag unset) returns every item exactly once, in
    non-increasing priority order, items of equal priority in their
    arrival order; the queue ends empty. *)
Theorem drain_sorted_stable dbg q cells :
  wf q → length cells = Z.to_nat (size q) →
  ∃ tr out, run dbg (mkWorld q 0) (drain_ops cells) = Some tr
    ∧ tr.*1 = Dequeued <$> out
    ∧ out ≡ₚ contents q
    ∧ (∀ i j x y, (i < j)%nat → out !! i = Some x → out !! j = Some y →
         priority y <= priority x)
    ∧ (∀ p, of_priority p out = of_priority p (contents q))
    ∧ size (w_queue (final (mkWorld q 0) tr)) = 0.
Proof.
  revert q. induction cells as [|cell cells IH]; intros q Hwf Hlen.
  - cbn in Hlen. pose proof (wf_size q Hwf).
    assert (Hnil : contents q = []).
    { apply length_zero_iff_nil. rewrite contents_length by done. lia. }
    exists [], []. rewrite Hnil. split_and!; try done.
    cbn. lia.
  - cbn in Hlen.
    destruct (step_dequeue_ok dbg q Hwf cell)
      as (q' & k & x & Hstep & Hwf' & Hcap & Hsz & Hsel & Hcont); [lia|].
    destruct (IH q' Hwf') as (tr & out & Hrun & Hobs & Hperm & Hsort & Hstab & Hfin);
      [lia|].
    exists ((Dequeued x, mkWorld q' 0) :: tr), (x :: out).
    pose proof Hsel as (Hk & _).
    split_and!.
    + cbn [drain_ops fmap list_fmap run]. rewrite Hstep.
      cbn [mbind option_bind]. fold (drain_ops cells). by rewrite Hrun.
    + cbn. by rewrite <- Hobs.
    + rewrite Hperm, Hcont. symmetry. by apply delete_Permutation.
    + intros i j a b Hij Ha Hb. destruct j as [|j]; [lia|].
      cbn in Hb. destruct i as [|i].
      * injection Ha as <-.
        apply (selects_max_elem _ _ _ _ Hsel).
        apply (list_elem_of_delete_inv _ k). rewrite <- Hcont, <- Hperm.
        by apply list_elem_of_lookup_2 in Hb.
      * cbn in Ha. apply (Hsort i j); [lia|done|done].
    + intros p. rewrite (selects_of_priority _ _ _ p Hsel).
      unfold of_priority at 1. rewrite filter_cons. fold (of_priority p out).
      rewrite Hstab, Hcont. done.
    + by rewrite final_cons.
Qed.

Lemma drain_sorted_stable_witness :
  wf sample_queue
  ∧ length [zero_item; zero_item; zero_item] = Z.to_nat (size sample_queue)
  ∧ ∃ tr out,
      run false (mkWorld sample_queue 0)
        (drain_ops [zero_item; zero_item; zero_item]) = Some tr
    ∧ out = [item_C; item_A; item_B]
    ∧ tr.*1 = Dequeued <$> out
    ∧ out ≡ₚ contents sample_queue
    ∧ (∀ i j x y, (i < j)%nat → out !! i = Some x → out !! j = Some y →
         priority y <= priority x)
    ∧ (∀ p, of_priority p out = of_priority p (contents sample_queue))
    ∧ size (w_queue (final (mkWorld sample_queue 0) tr)) = 0.
Proof.
  split; [exact sample_queue_wf|]. split; [reflexivity|].
  destruct (drain_sorted_stable false sample_queue
              [zero_item; zero_item; zero_item] sample_queue_wf eq_refl)
    as (tr & out & Hrun & Hobs & Hrest).
  exists tr, out. split; [exact Hrun|].
  vm_compute in Hrun. injection Hrun as <-.
  assert (out = [item_C; item_A; item_B]) as ->.
  { cbn in Hobs. destruct out as [|a [|b [|c [|d out]]]]; try discriminate.
    cbn in Hobs. by injection Hobs as <- <- <-. }
  split; [reflexivity|]. split; [reflexivity|]. exact Hrest.
Defined.

(** X4. Dequeue takes the constant-time path (the scan answers [head])
    exactly when no stored item has a priority above that of the oldest
    item; it then returns the oldest item, moves only [head], and leaves
    the array and [tail] untouched.  In particular a queue whose items
    all have the same priority is a plain FIFO. *)
Theorem dequeue_fifo_when_head_is_maximal dbg q cell hd :
  wf q → contents q !! 0%nat = Some hd →
  ∃ x q' out,
    queue_dequeue dbg 0 false (Some q) (Some cell)
    = Some (Returned 0 (Some q', Some x) out)
    ∧ ((∀ y, y ∈ contents q → priority y <= priority hd)
       ↔ find_highest_priority_index q = Some (head q))
    ∧ ((∀ y, y ∈ contents q → priority y <= priority hd) →
       x = hd ∧ items q' = items q
       ∧ head q' = (head q + 1) `mod` capacity q ∧ tail q' = tail q
       ∧ contents q' = drop 1 (contents q)).
Proof.
  intros Hwf Hhd.
  assert (Hpos : 0 < size q).
  { apply lookup_lt_Some in Hhd. rewrite contents_length in Hhd by done. lia. }
  destruct (dequeue_succeeds dbg q Hwf cell Hpos)
    as (k & x & q' & Heq & Hfind & Hsel & _ & _ & _ & Hcont & Hhead & _).
  pose proof (selects_lt q Hwf k x Hsel) as Hk.
  assert (Hzero : (∀ y, y ∈ contents q → priority y <= priority hd) →
                  k = 0%nat ∧ x = hd).
  { intros Hmax. apply (selects_unique (contents q)); [done|].
    split_and!; [done| |lia].
    intros j y Hj. apply Hmax. by apply list_elem_of_lookup_2 in Hj. }
  exists x, q'. eexists. split; [exact Heq|]. split; [split|].
  - intros Hmax. destruct (Hzero Hmax) as [-> _].
    by rewrite Hfind, slot_0.
  - intros Hfast. rewrite Hfind in Hfast. injection Hfast as Hslot.
    apply slot_is_head in Hslot; [|done|done]. subst k.
    destruct Hsel as (Hx & Hmax & _).
    assert (x = hd) as -> by congruence.
    intros y [j Hj]%list_elem_of_lookup. by apply (Hmax j).
  - intros Hmax. destruct (Hzero Hmax) as [-> ->].
    destruct Hhead as (? & ? & ?); [by apply slot_0|].
    split_and!; try done. rewrite Hcont. by destruct (contents q).
Qed.

Lemma dequeue_fifo_when_head_is_maximal_witness :
  wf (mkQueue [item_C; item_B; zero_item; item_A] 4 2 0 2)
  ∧ contents (mkQueue [item_C; item_B; zero_item; item_A] 4 2 0 2) !! 0%nat
    = Some item_C
  ∧ ∃ x q' out,
      queue_dequeue false 0 false
        (Some (mkQueue [item_C; item_B; zero_item; item_A] 4 2 0 2))
        (Some zero_item)
      = Some (Returned 0 (Some q', Some x) out)
      ∧ x = item_C
      ∧ contents q' = [item_B].
Proof.
  assert (Hwf : wf (mkQueue [item_C; item_B; zero_item; item_A] 4 2 0 2)).
  { split; cbn; lia || reflexivity. }
  split; [exact Hwf|]. split; [reflexivity|].
  destruct (dequeue_fifo_when_head_is_maximal false _ zero_item item_C
              Hwf eq_refl) as (x & q' & out & Heq & _ & Hfast).
  exists x, q', out. split; [exact Heq|].
  destruct Hfast as (-> & _ & _ & _ & ->).
  - intros y.
    change (contents (mkQueue [item_C; item_B; zero_item; item_A] 4 2 0 2))
      with [item_C; item_B].
    rewrite !elem_of_cons, elem_of_nil.
    intros [->|[->|[]]]; cbn; lia.
  - split; reflexivity.
Defined.

(** X5. Blocking conditions.  On a well-formed queue, enqueue parks
    exactly when [queue_is_full_check] answers true and the flag is
    unset, dequeue exactly when [queue_is_empty_check] answers true and
    the flag is unset; the two probes say that the queue holds [capacity]
    items, respectively none, and never both. *)
Theorem blocking_conditions dbg q flag fired item cell :
  wf q →
  (queue_enqueue dbg flag fired (Some q) item = Some Suspended
   ↔ queue_is_full_check q = true ∧ flag = 0)
  ∧ (queue_dequeue dbg flag fired (Some q) (Some cell) = Some Suspended
     ↔ queue_is_empty_check q = true ∧ flag = 0)
  ∧ (queue_is_full_check q = true
     ↔ Z.of_nat (length (contents q)) = capacity q)
  ∧ (queue_is_empty_check q = true ↔ contents q = [])
  ∧ ¬ (queue_is_full_check q = true ∧ queue_is_empty_check q = true).
Proof.
  intros Hwf. pose proof Hwf as [Hcap Hlen Hsz Hhd Htl].
  pose proof (contents_length q Hwf) as Hcl.
  unfold queue_is_full_check, queue_is_empty_check, queue_is_full,
    queue_is_empty.
  split_and!.
  - destruct (enqueue_cases dbg q Hwf flag fired item) as (o & Ho & Hcase).
    rewrite Ho, Z.eqb_eq. split.
    + intros [= ->]. done.
    + intros [Hfull ->]. rewrite <- Ho. by apply enqueue_suspends.
  - destruct (dequeue_cases dbg q Hwf flag fired cell) as (o & Ho & Hcase).
    rewrite Ho, Z.eqb_eq. split.
    + intros [= ->]. done.
    + intros [Hempty ->]. rewrite <- Ho. by apply dequeue_suspends.
  - rewrite Z.eqb_eq. lia.
  - rewrite Z.eqb_eq, <- length_zero_iff_nil. lia.
  - rewrite !Z.eqb_eq. lia.
Qed.

Lemma blocking_conditions_witness :
  wf sample_queue
  ∧ (queue_enqueue false 0 false (Some sample_queue) item_A = Some Suspended
     ↔ queue_is_full_check sample_queue = true ∧ 0 = 0)
  ∧ (queue_dequeue false 0 false (Some sample_queue) (Some zero_item)
     = Some Suspended
     ↔ queue_is_empty_check sample_queue = true ∧ 0 = 0)
  ∧ (queue_is_full_check sample_queue = true
     ↔ Z.of_nat (length (contents sample_queue)) = capacity sample_queue)
  ∧ (queue_is_empty_check sample_queue = true ↔ contents sample_queue = [])
  ∧ ¬ (queue_is_full_check sample_queue = true
       ∧ queue_is_empty_check sample_queue = true).
Proof.
  split; [exact sample_queue_wf|].
  apply (blocking_conditions false sample_queue 0 false item_A zero_item).
  exact sample_queue_wf.
Defined.

(** ** Enqueue followed by dequeue *)

Lemma selects_snoc_new (l : list QueueItem) x :
  (∀ z, z ∈ l → priority z < priority x) → selects (l ++ [x]) (length l) x.
Proof.
  intros Hlow. split_and!.
  - by rewrite list_lookup_middle.
  - intros j y Hj. apply list_elem_of_lookup_2 in Hj.
    apply elem_of_app in Hj as [Hj|Hj].
    + pose proof (Hlow y Hj). lia.
    + apply list_elem_of_singleton in Hj as ->. lia.
  - intros j y Hlt Hj. rewrite lookup_app_l in Hj by done.
    apply Hlow. by apply list_elem_of_lookup_2 in Hj.
Qed.

Lemma selects_snoc_old (l : list QueueItem) k z x :
  selects l k z → priority x <= priority z → selects (l ++ [x]) k z.
Proof.
  intros (Hk & Hmax & Hfst) Hle.
  pose proof (lookup_lt_Some _ _ _ Hk) as Hlt. split_and!.
  - by rewrite lookup_app_l.
  - intros j y Hj. apply list_elem_of_lookup_2 in Hj.
    apply elem_of_app in Hj as [[i Hi]%list_elem_of_lookup|Hj].
    + by apply (Hmax i).
    + by apply list_elem_of_singleton in Hj as ->.
  - intros j y Hj Hy. rewrite lookup_app_l in Hy by lia.
    by apply (Hfst j).
Qed.

Lemma delete_snoc_lt {A} (l : list A) k x :
  (k < length l)%nat → delete k (l ++ [x]) = delete k l ++ [x].
Proof.
  revert k. induction l as [|a l IH]; intros k Hk; cbn in *; [lia|].
  destruct k as [|k]; [done|]. cbn. f_equal. apply IH. lia.
Qed.

(** X6. Enqueue then dequeue.  On a well-formed queue with room, an
    enqueue of [x] followed by a dequeue gives [x] straight back, and
    restores the previous contents, when [x] has a strictly higher
    priority than every stored item (so always on an empty queue);
    otherwise the dequeue returns the item it would have returned
    without the enqueue, and [x] is left waiting at the tail. *)
Theorem enqueue_then_dequeue dbg q x cell :
  wf q → size q < capacity q →
  ∃ q1 out1 q2 y out2,
    queue_enqueue dbg 0 false (Some q) x = Some (Returned 0 (Some q1) out1)
    ∧ queue_dequeue dbg 0 false (Some q1) (Some cell)
      = Some (Returned 0 (Some q2, Some y) out2)
    ∧ ((∀ z, z ∈ contents q → priority z < priority x) →
       y = x ∧ contents q2 = contents q)
    ∧ (∀ k z, selects (contents q) k z → priority x <= priority z →
       y = z ∧ contents q2 = delete k (contents q) ++ [x]).
Proof.
  intros Hwf Hroom. pose proof (wf_size q Hwf).
  destruct (enqueue_succeeds dbg q Hwf x Hroom)
    as (q1 & Henq & Hwf1 & _ & _ & Hsz1 & Hc1).
  destruct (dequeue_succeeds dbg q1 Hwf1 cell)
    as (k' & y & q2 & Hdeq & _ & Hsel & _ & _ & _ & Hc2 & _); [lia|].
  rewrite Hc1 in Hsel, Hc2.
  exists q1. eexists. exists q2, y. eexists.
  split; [exact Henq|]. split; [exact Hdeq|]. split.
  - intros Hlow.
    destruct (selects_unique _ _ _ _ _ Hsel (selects_snoc_new _ x Hlow))
      as [-> ->].
    split; [done|]. rewrite Hc2.
    by rewrite (delete_middle (contents q) [] x), app_nil_r.
  - intros k z Hz Hle.
    destruct (selects_unique _ _ _ _ _ Hsel (selects_snoc_old _ _ _ x Hz Hle))
      as [-> ->].
    split; [done|]. rewrite Hc2. apply delete_snoc_lt.
    destruct Hz as (Hk & _). by apply lookup_lt_Some in Hk.
Qed.

Lemma enqueue_then_dequeue_witness :
  wf sample_queue ∧ size sample_queue < capacity sample_queue
  ∧ selects (contents sample_queue) 1 item_C
  ∧ priority item_B <= priority item_C
  ∧ ∃ q1 out1 q2 y out2,
      queue_enqueue false 0 false (Some sample_queue) item_B
      = Some (Returned 0 (Some q1) out1)
      ∧ queue_dequeue false 0 false (Some q1) (Some zero_item)
        = Some (Returned 0 (Some q2, Some y) out2)
      ∧ y = item_C
      ∧ contents q2 = delete 1%nat (contents sample_queue) ++ [item_B].
Proof.
  assert (Hsel : selects (contents sample_queue) 1 item_C).
  { change (contents sample_queue) with [item_A; item_C; item_B].
    split_and!;
      [ reflexivity
      | intros [|[|[|?]]] y [= <-]; cbn; lia
      | intros [|[|[|?]]] y ? [= <-]; cbn; lia ]. }
  split; [exact sample_queue_wf|]. split; [reflexivity|].
  split; [exact Hsel|]. split; [cbn; lia|].
  destruct (enqueue_then_dequeue false sample_queue item_B zero_item
              sample_queue_wf eq_refl)
    as (q1 & out1 & q2 & y & out2 & Henq & Hdeq & _ & Hold).
  exists q1, out1, q2, y, out2. split; [exact Henq|]. split; [exact Hdeq|].
  apply (Hold 1%nat item_C Hsel). cbn. lia.
Defined.

(** ** Cancellation is final *)

Lemma step_cancelled dbg w op :
  w_flag w ≠ 0 →
  ∃ w' o, step dbg w op = Some (w', o)
    ∧ (o = Failed ∨ o = TimedOut)
    ∧ w_queue w' = w_queue w ∧ w_flag w' ≠ 0.
Proof.
  intros Hset. destruct op as [item fired|cell fired|]; cbn [step].
  - rewrite enqueue_cancelled; [|by destruct fired|by right].
    cbn. eexists _, _. split; [done|]. split_and!; [by left|done|].
    by destruct fired.
  - rewrite dequeue_cancelled; [|by destruct fired|by right].
    cbn. eexists _, _. split; [done|]. split_and!; [by left|done|].
    by destruct fired.
  - eexists _, _. split; [done|]. split_and!; [by right|done|done].
Qed.

(** X7. Once [timeout_flag] is set it stays set, and from then on every
    enqueue and dequeue of any sequence fails without parking: nothing is
    inserted or removed and the queue keeps the state it had when the
    flag was set, so items still stored are never delivered.  One run of
    [timeout_handler] is enough to get there from any state. *)
Theorem cancellation_is_final dbg w ops :
  w_flag w ≠ 0 →
  (∃ tr, run dbg w ops = Some tr
     ∧ length tr = length ops
     ∧ Forall (λ ow, (ow.1 = Failed ∨ ow.1 = TimedOut)
                     ∧ w_queue ow.2 = w_queue w ∧ w_flag ow.2 ≠ 0) tr
     ∧ enqueued_items tr = [] ∧ dequeued_items tr = [])
  ∧ (∀ w0, step dbg w0 Timeout
           = Some (mkWorld (w_queue w0) 1, TimedOut)).
Proof.
  intros Hset. split; [|done].
  revert w Hset. induction ops as [|op ops IH]; intros w Hset.
  - exists []. split_and!; try done.
  - destruct (step_cancelled dbg w op Hset)
      as (w1 & o & Hstep & Ho & Hq & Hset1).
    destruct (IH w1 Hset1) as (tr & Hrun & Hlen & Hall & Henq & Hdeq).
    exists ((o, w1) :: tr). split_and!.
    + cbn [run]. rewrite Hstep. cbn. by rewrite Hrun.
    + cbn. by rewrite Hlen.
    + constructor; [done|].
      eapply Forall_impl; [exact Hall|]. cbn. intros ? (? & ? & ?).
      split_and!; [done|congruence|done].
    + destruct Ho as [-> | ->]; exact Henq.
    + destruct Ho as [-> | ->]; exact Hdeq.
Qed.

Lemma cancellation_is_final_witness :
  w_flag (mkWorld sample_queue 1) ≠ 0
  ∧ (∃ tr, run false (mkWorld sample_queue 1) sample_ops = Some tr
       ∧ length tr = length sample_ops
       ∧ Forall (λ ow, (ow.1 = Failed ∨ ow.1 = TimedOut)
                       ∧ w_queue ow.2 = w_queue (mkWorld sample_queue 1)
                       ∧ w_flag ow.2 ≠ 0) tr
       ∧ enqueued_items tr = [] ∧ dequeued_items tr = [])
  ∧ (∀ w0, step false w0 Timeout
           = Some (mkWorld (w_queue w0) 1, TimedOut)).
Proof.
  split; [cbn; lia|].
  apply (cancellation_is_final false (mkWorld sample_queue 1) sample_ops).
  cbn. lia.
Defined.

(** * The argument check of main.c *)

(** Membership of a constant in a short explicit list of constants,
    against an arithmetic condition. *)
Ltac solve_reported :=
  let H := fresh in
  split; intros H;
  [ first [ lia
          | exfalso;
            repeat (apply elem_of_cons in H as [H|H]; [discriminate H|]);
            by apply elem_of_nil in H ]
  | first [ exfalso; lia
          | repeat first [apply list_elem_of_here
                         | apply list_elem_of_further] ] ].

(** X8. [validate_arguments] accepts exactly when all four parameters
    are in range (producers and consumers between 1 and their maxima,
    queue size between 1 and 20, timeout positive).  It does not stop at
    the first violation: it reports every parameter that is out of range
    and no other, in the fixed order producers, consumers, queue size,
    timeout, and it prints nothing exactly when it accepts. *)
Theorem validate_arguments_reports MP MC np nc qs t :
  ((validate_arguments MP MC np nc qs t).1 = true
   ↔ 1 <= np <= MP ∧ 1 <= nc <= MC ∧ 1 <= qs <= 20 ∧ 0 < t)
  ∧ ((validate_arguments MP MC np nc qs t).1 = true
     ↔ (validate_arguments MP MC np nc qs t).2 = [])
  ∧ (ErrProducers ∈ (validate_arguments MP MC np nc qs t).2
     ↔ ¬ 1 <= np <= MP)
  ∧ (ErrConsumers ∈ (validate_arguments MP MC np nc qs t).2
     ↔ ¬ 1 <= nc <= MC)
  ∧ (ErrQueueSize ∈ (validate_arguments MP MC np nc qs t).2
     ↔ ¬ 1 <= qs <= 20)
  ∧ (ErrTimeout ∈ (validate_arguments MP MC np nc qs t).2 ↔ ¬ 0 < t)
  ∧ (validate_arguments MP MC np nc qs t).2
    `sublist_of` [ErrProducers; ErrConsumers; ErrQueueSize; ErrTimeout].
Proof.
  unfold validate_arguments. rewrite !Z.gtb_ltb.
  destruct (Z.ltb_spec np 1), (Z.ltb_spec MP np), (Z.ltb_spec nc 1),
    (Z.ltb_spec MC nc), (Z.ltb_spec qs 1), (Z.ltb_spec 20 qs),
    (Z.leb_spec t 0); cbn;
    (split; [split; (done || lia)|]);
    (split; [split; done|]);
    do 4 (split; [solve_reported|]);
    repeat first [apply sublist_nil | apply sublist_skip | apply sublist_cons].
Qed.

(** What the Makefile's default run passes, and an all-wrong call. *)
Example validate_arguments_samples :
  validate_arguments 10 10 3 2 10 20 = (true, [])
  ∧ validate_arguments 10 10 0 11 21 0
    = (false, [ErrProducers; ErrConsumers; ErrQueueSize; ErrTimeout]).
Proof. split; reflexivity. Qed.

(** * Random numbers and sleeping *)

Section UtilsProofs.

Context (dbg : bool) (RandState : Type) (srand : Z → RandState)
  (rand : RandState → Z * RandState) (rand_r : Z → Z * Z).

(** [rand()] and [rand_r()] return values between 0 and [RAND_MAX]. *)
Context (rand_nonneg : ∀ g, 0 <= (rand g).1)
  (rand_r_nonneg : ∀ s, 0 <= (rand_r s).1).

Lemma scaled_in_range r lo hi :
  0 <= r → lo < hi → lo <= Z.rem r (hi - lo + 1) + lo <= hi.
Proof.
  intros Hr Hlt.
  pose proof (Z.rem_bound_pos r (hi - lo + 1)). lia.
Qed.

Lemma random_range_seed_total min max seed :
  Z.abs (max - min) < INT_MAX →
  ∃ v seed', random_range_seed rand_r min max seed = Some (v, seed')
    ∧ Z.min min max <= v <= Z.max min max
    ∧ (min = max → v = min ∧ seed' = seed)
    ∧ (min ≠ max →
       v = Z.rem (rand_r seed).1 (Z.abs (max - min) + 1) + Z.min min max
       ∧ seed' = (rand_r seed).2).
Proof.
  intros Hfit. unfold random_range_seed. rewrite Z.gtb_ltb.
  pose proof (rand_r_nonneg seed) as Hr.
  destruct (Z.ltb_spec max min) as [Hswap|Hord].
  - replace (max =? min) with false by (symmetry; apply Z.eqb_neq; lia).
    rewrite Z.gtb_ltb.
    replace (INT_MAX <? min - max + 1) with false
      by (symmetry; apply Z.ltb_ge; lia).
    destruct (rand_r seed) as [r s] eqn:Hrs. cbn in Hr.
    exists (Z.rem r (min - max + 1) + max), s.
    pose proof (scaled_in_range r max min Hr Hswap).
    split_and!; [done|lia|lia|lia|].
    intros _. split; [|done]. f_equal; [f_equal|]; lia.
  - destruct (Z.eqb_spec min max) as [->|Hne].
    + exists max, seed. split_and!; [done|lia|lia|done|done].
    + rewrite Z.gtb_ltb.
      replace (INT_MAX <? max - min + 1) with false
        by (symmetry; apply Z.ltb_ge; lia).
      destruct (rand_r seed) as [r s] eqn:Hrs. cbn in Hr.
      exists (Z.rem r (max - min + 1) + min), s.
      assert (min < max) as Hlt by lia.
      pose proof (scaled_in_range r min max Hr Hlt).
      split_and!; [done|lia|lia|done|].
      intros _. split; [|done]. f_equal; [f_equal|]; lia.
Qed.

(** X9. [random_range_seed] returns a value between the smaller and the
    larger of its two bounds, whatever their order, and gives the same
    result with the bounds exchanged; with equal bounds it returns the
    bound without touching the seed, otherwise it advances the seed by
    one [rand_r] step.  When the width of the interval does not fit an
    [int] the range computation overflows (undefined behaviour). *)
Theorem random_range_seed_bounds min max seed :
  (Z.abs (max - min) < INT_MAX →
   ∃ v seed', random_range_seed rand_r min max seed = Some (v, seed')
     ∧ Z.min min max <= v <= Z.max min max
     ∧ random_range_seed rand_r max min seed = Some (v, seed')
     ∧ (min = max → seed' = seed)
     ∧ (min ≠ max → seed' = (rand_r seed).2))
  ∧ (INT_MAX <= Z.abs (max - min) →
     random_range_seed rand_r min max seed = None).
Proof.
  split.
  - intros Hfit.
    destruct (random_range_seed_total min max seed Hfit)
      as (v & s & Heq & Hin & Hsame & Hdiff).
    destruct (random_range_seed_total max min seed)
      as (v' & s' & Heq' & _ & Hsame' & Hdiff'); [lia|].
    exists v, s. split; [done|]. split; [done|].
    split; [|split; [by intros [_ ?]%Hsame|by intros [_ ?]%Hdiff]].
    rewrite Heq'. destruct (decide (min = max)) as [->|Hne].
    + destruct Hsame as [-> ->]; [done|].
      by destruct Hsame' as [-> ->].
    + destruct Hdiff as [-> ->]; [done|].
      destruct Hdiff' as [-> ->]; [done|].
      do 2 f_equal. f_equal; [f_equal|]; lia.
  - intros Hbig. unfold random_range_seed. rewrite Z.gtb_ltb.
    destruct (Z.ltb_spec max min).
    + replace (max =? min) with false by (symmetry; apply Z.eqb_neq; lia).
      rewrite Z.gtb_ltb.
      by replace (INT_MAX <? min - max + 1) with true
        by (symmetry; apply Z.ltb_lt; lia).
    + replace (min =? max) with false
        by (symmetry; apply Z.eqb_neq; unfold INT_MAX in *; lia).
      rewrite Z.gtb_ltb.
      by replace (INT_MAX <? max - min + 1) with true
        by (symmetry; apply Z.ltb_lt; lia).
Qed.

(** X10. [random_range] seeds libc's generator on first use only: a call
    that finds [random_initialized] clear calls [srand] with the clock
    and the process id, sets the flag and (under [DEBUG_MODE]) prints one
    line; a call that finds it set never calls [srand] and prints
    nothing.  After every call the flag is set, and the value returned
    lies between the smaller and the larger bound; equal bounds consume
    no random number. *)
Theorem random_range_seeds_once now min max st :
  Z.abs (max - min) < INT_MAX →
  ∃ v st' out,
    random_range dbg RandState srand rand now min max st = Some (v, st', out)
    ∧ Z.min min max <= v <= Z.max min max
    ∧ random_initialized st' ≠ 0
    ∧ (random_initialized st ≠ 0 →
       out = [] ∧ random_initialized st' = random_initialized st
       ∧ libc_rand st'
         = if decide (min = max) then libc_rand st
           else (rand (libc_rand st)).2)
    ∧ (random_initialized st = 0 →
       out = (if dbg then [DbgRandomInitialized] else [])
       ∧ random_initialized st' = 1
       ∧ libc_rand st'
         = let g := srand ((tv_sec now * 1000000 + tv_usec now + pid now)
                             `mod` 2 ^ 32) in
           if decide (min = max) then g else (rand g).2).
Proof.
  intros Hfit. unfold random_range.
  destruct (if random_initialized st =? 0
            then init_random dbg RandState srand now st else (st, []))
    as [st1 out1] eqn:Hp.
  assert (Hgen : ∃ v st',
    (let '(min0, max0) := if min >? max then (max, min) else (min, max) in
     if min0 =? max0 then Some (min0, st1, out1)
     else
       let range := max0 - min0 + 1 in
       if range >? INT_MAX then None
       else
         let '(r, g) := rand (libc_rand st1) in
         Some (Z.rem r range + min0,
               mkUtilsState RandState (random_initialized st1) g, out1))
    = Some (v, st', out1)
    ∧ Z.min min max <= v <= Z.max min max
    ∧ random_initialized st' = random_initialized st1
    ∧ libc_rand st'
      = if decide (min = max) then libc_rand st1
        else (rand (libc_rand st1)).2).
  { pose proof (rand_nonneg (libc_rand st1)) as Hr.
    rewrite Z.gtb_ltb. destruct (Z.ltb_spec max min) as [Hswap|Hord].
    - replace (max =? min) with false by (symmetry; apply Z.eqb_neq; lia).
      cbn zeta. rewrite Z.gtb_ltb.
      replace (INT_MAX <? min - max + 1) with false
        by (symmetry; apply Z.ltb_ge; lia).
      destruct (rand (libc_rand st1)) as [r g] eqn:Hrg. cbn in Hr.
      pose proof (scaled_in_range r max min Hr Hswap).
      eexists _, _. split; [reflexivity|]. cbn.
      split; [lia|]. split; [done|]. case_decide; [lia|done].
    - destruct (Z.eqb_spec min max) as [->|Hne].
      + eexists _, _. split; [reflexivity|].
        split; [lia|]. split; [done|]. by case_decide.
      + cbn zeta. rewrite Z.gtb_ltb.
        replace (INT_MAX <? max - min + 1) with false
          by (symmetry; apply Z.ltb_ge; lia).
        destruct (rand (libc_rand st1)) as [r g] eqn:Hrg. cbn in Hr.
        assert (min < max) as Hlt by lia.
        pose proof (scaled_in_range r min max Hr Hlt).
        eexists _, _. split; [reflexivity|]. cbn.
        split; [lia|]. split; [done|]. by case_decide. }
  destruct Hgen as (v & st' & Heq & Hin & Hflag & Hgen).
  exists v, st', out1. split; [exact Heq|]. split; [exact Hin|].
  unfold init_random in Hp.
  destruct (Z.eqb_spec (random_initialized st) 0) as [Hinit|Hinit];
    injection Hp as <- <-; cbn [random_initialized libc_rand] in *.
  - split; [lia|]. split; [done|]. intros _. by rewrite Hflag, Hgen.
  - split; [lia|]. split; [|done]. intros _. by rewrite Hflag, Hgen.
Qed.

(** X11. [sleep_random] returns at once, without drawing a random number
    and without calling [sleep], when [max_seconds] is not positive;
    otherwise it calls [sleep] with a whole number of seconds between 1
    and [max_seconds]. *)
Theorem sleep_random_bounds now max_seconds st :
  max_seconds <= INT_MAX →
  (max_seconds <= 0 →
   sleep_random dbg RandState srand rand now max_seconds st
   = Some (None, st, []))
  ∧ (0 < max_seconds →
     ∃ t st' out,
       sleep_random dbg RandState srand rand now max_seconds st
       = Some (Some t, st', out)
       ∧ 1 <= t <= max_seconds).
Proof.
  intros Hint. unfold sleep_random. split.
  - intros Hle. by replace (max_seconds <=? 0) with true
      by (symmetry; apply Z.leb_le; lia).
  - intros Hpos. replace (max_seconds <=? 0) with false
      by (symmetry; apply Z.leb_gt; lia).
    unfold random_range.
    destruct (if random_initialized st =? 0
              then init_random dbg RandState srand now st else (st, []))
      as [st1 out1].
    pose proof (rand_nonneg (libc_rand st1)) as Hr.
    rewrite Z.gtb_ltb.
    destruct (Z.ltb_spec max_seconds 1) as [?|_]; [lia|].
    destruct (Z.eqb_spec 1 max_seconds) as [<-|Hne].
    + cbn. eexists _, _, _. split; [reflexivity|]. lia.
    + cbn zeta. rewrite Z.gtb_ltb.
      replace (INT_MAX <? max_seconds - 1 + 1) with false
        by (symmetry; apply Z.ltb_ge; lia).
      destruct (rand (libc_rand st1)) as [r g]. cbn in Hr.
      pose proof (scaled_in_range r 1 max_seconds Hr ltac:(lia)).
      cbn. eexists _, _, _. split; [reflexivity|]. lia.
Qed.

End UtilsProofs.

Lemma sample_rand_nonneg : ∀ g, 0 <= (sample_rand g).1.
Proof. intros g. cbn. lia. Defined.

Lemma random_range_seed_bounds_witness :
  (∀ s, 0 <= (sample_rand s).1)
  ∧ (Z.abs (2 - 9) < INT_MAX
     ∧ ∃ v seed', random_range_seed sample_rand 9 2 12 = Some (v, seed')
         ∧ Z.min 9 2 <= v <= Z.max 9 2
         ∧ random_range_seed sample_rand 2 9 12 = Some (v, seed')
         ∧ (9 = 2 → seed' = 12)
         ∧ (9 ≠ 2 → seed' = (sample_rand 12).2))
  ∧ (INT_MAX <= Z.abs (INT_MAX - (-1))
     ∧ random_range_seed sample_rand (-1) INT_MAX 12 = None).
Proof.
  split; [exact sample_rand_nonneg|]. split.
  - split; [reflexivity|].
    apply (proj1 (random_range_seed_bounds sample_rand sample_rand_nonneg
                    9 2 12)).
    reflexivity.
  - split; [vm_compute; discriminate|].
    apply (proj2 (random_range_seed_bounds sample_rand sample_rand_nonneg
                    (-1) INT_MAX 12)).
    vm_compute. discriminate.
Defined.

Lemma random_range_seeds_once_witness :
  (∀ g, 0 <= (sample_rand g).1)
  ∧ Z.abs (9 - 0) < INT_MAX
  ∧ ∃ v st' out,
      random_range true Z id sample_rand sample_clock 0 9 (mkUtilsState Z 0 0)
      = Some (v, st', out)
      ∧ Z.min 0 9 <= v <= Z.max 0 9
      ∧ random_initialized st' ≠ 0
      ∧ (random_initialized (mkUtilsState Z 0 0) ≠ 0 →
         out = []
         ∧ random_initialized st' = random_initialized (mkUtilsState Z 0 0)
         ∧ libc_rand st'
           = if decide (0 = 9) then libc_rand (mkUtilsState Z 0 0)
             else (sample_rand (libc_rand (mkUtilsState Z 0 0))).2)
      ∧ (random_initialized (mkUtilsState Z 0 0) = 0 →
         out = [DbgRandomInitialized]
         ∧ random_initialized st' = 1
         ∧ libc_rand st'
           = let g := id ((tv_sec sample_clock * 1000000
                           + tv_usec sample_clock + pid sample_clock)
                            `mod` 2 ^ 32) in
             if decide (0 = 9) then g else (sample_rand g).2).
Proof.
  split; [exact sample_rand_nonneg|]. split; [reflexivity|].
  apply (random_range_seeds_once true Z id sample_rand sample_rand_nonneg
           sample_clock 0 9 (mkUtilsState Z 0 0)).
  reflexivity.
Defined.

(** Two calls in a row: the first seeds and prints, the second does not. *)
Example random_range_twice :
  random_range true Z id sample_rand sample_clock 0 9 (mkUtilsState Z 0 0)
  = Some (0, mkUtilsState Z 1 404889891, [DbgRandomInitialized])
  ∧ random_range true Z id sample_rand sample_clock 0 9
      (mkUtilsState Z 1 404889891)
    = Some (1, mkUtilsState Z 1 404889892, []).
Proof. split; vm_compute; reflexivity. Qed.

Lemma sleep_random_bounds_witness :
  (∀ g, 0 <= (sample_rand g).1)
  ∧ 3 <= INT_MAX
  ∧ (0 <= INT_MAX ∧ 0 <= 0
     ∧ sleep_random false Z id sample_rand sample_clock 0
         (mkUtilsState Z 1 5)
       = Some (None, mkUtilsState Z 1 5, []))
  ∧ (0 < 3
     ∧ ∃ t st' out,
         sleep_random false Z id sample_rand sample_clock 3
           (mkUtilsState Z 1 5)
         = Some (Some t, st', out)
         ∧ 1 <= t <= 3).
Proof.
  split; [exact sample_rand_nonneg|]. split; [vm_compute; discriminate|].
  split.
  - split; [vm_compute; discriminate|]. split; [lia|].
    apply (proj1 (sleep_random_bounds false Z id sample_rand
                    sample_rand_nonneg sample_clock 0 (mkUtilsState Z 1 5)
                    ltac:(vm_compute; discriminate))).
    lia.
  - split; [lia|].
    apply (proj2 (sleep_random_bounds false Z id sample_rand
                    sample_rand_nonneg sample_clock 3 (mkUtilsState Z 1 5)
                    ltac:(vm_compute; discriminate))).
    lia.
Defined.

(** * Metrics *)

Section AnalyticsProofs.

Context (dbg : bool) (HIGH NORMAL LONG_MAX : Z) (double : Type)
  (d_add : double → double → double) (d_lt : double → double → bool)
  (d_zero d_minus_one : double).

#[local] Abbreviation record_all' :=
  (record_all HIGH NORMAL LONG_MAX double d_add d_lt d_zero).
#[local] Abbreviation count' := (count double).
#[local] Abbreviation analytics_init' :=
  (analytics_init dbg double d_zero d_minus_one).

Lemma count_cons (f : Metric double → bool) m ms :
  count' f (m :: ms) = (if f m then 1 else 0) + count' f ms.
Proof.
  unfold count. rewrite filter_cons.
  destruct (f m); case_decide; try done; cbn [length]; lia.
Qed.

Lemma count_nonneg (f : Metric double → bool) ms : 0 <= count' f ms.
Proof. unfold count. lia. Qed.

(** Every consume call bumps [total_consumed]; those with a priority bump
    exactly one bucket as well. *)
Lemma count_consumed_split ms :
  count' (bumps_consumed double) ms
  = count' (bumps_high HIGH double) ms
    + count' (bumps_normal HIGH NORMAL double) ms
    + count' (bumps_low HIGH NORMAL double) ms
    + count' (λ m, match m with RecConsume _ _ => true | _ => false end) ms.
Proof.
  induction ms as [|m ms IH]; [done|].
  rewrite !count_cons, IH.
  destruct m as [|l|p l| |]; cbn; try lia.
  destruct (p =? HIGH), (p =? NORMAL); cbn; lia.
Qed.

Ltac incr_ok :=
  unfold long_incr;
  repeat match goal with
         | |- context [?x <? LONG_MAX] =>
           replace (x <? LONG_MAX) with true
             by (symmetry; apply Z.ltb_lt; lia)
         end;
  cbn [mbind option_bind].

Lemma record_all_counts ms : ∀ a,
  total_produced a + Z.of_nat (length ms) <= LONG_MAX →
  total_consumed a + Z.of_nat (length ms) <= LONG_MAX →
  producer_blocks a + Z.of_nat (length ms) <= LONG_MAX →
  consumer_blocks a + Z.of_nat (length ms) <= LONG_MAX →
  high_priority_consumed a + Z.of_nat (length ms) <= LONG_MAX →
  normal_priority_consumed a + Z.of_nat (length ms) <= LONG_MAX →
  low_priority_consumed a + Z.of_nat (length ms) <= LONG_MAX →
  ∃ a', record_all' (Some a) ms = Some (Some a')
    ∧ total_produced a'
      = total_produced a + count' (bumps_produced double) ms
    ∧ total_consumed a'
      = total_consumed a + count' (bumps_consumed double) ms
    ∧ producer_blocks a'
      = producer_blocks a + count' (bumps_producer_blocks double) ms
    ∧ consumer_blocks a'
      = consumer_blocks a + count' (bumps_consumer_blocks double) ms
    ∧ high_priority_consumed a'
      = high_priority_consumed a + count' (bumps_high HIGH double) ms
    ∧ normal_priority_consumed a'
      = normal_priority_consumed a
        + count' (bumps_normal HIGH NORMAL double) ms
    ∧ low_priority_consumed a'
      = low_priority_consumed a + count' (bumps_low HIGH NORMAL double) ms.
Proof.
  induction ms as [|m ms IH]; intros a H1 H2 H3 H4 H5 H6 H7.
  - exists a. unfold count. cbn. split_and!; [done|lia..].
  - cbn [length] in *. rewrite !count_cons.
    destruct m as [|l|p l| |]; cbn [record_all record_metric];
      unfold analytics_record_produce, analytics_record_consume,
        analytics_record_consume_priority, analytics_record_producer_block,
        analytics_record_consumer_block;
      cbn [bumps_produced bumps_consumed bumps_producer_blocks
             bumps_consumer_blocks bumps_high bumps_normal bumps_low];
      try (destruct (p =? HIGH); [|destruct (p =? NORMAL)]);
      cbn [negb andb]; incr_ok;
      match goal with
      | |- context [record_all' (Some ?b) ms] =>
        destruct (IH b) as (a' & -> & E1 & E2 & E3 & E4 & E5 & E6 & E7);
          cbn [total_produced total_consumed producer_blocks consumer_blocks
                 high_priority_consumed normal_priority_consumed
                 low_priority_consumed] in *; try lia;
          exists a'; split_and!; [done|lia..]
      end.
Qed.

(** X12. [analytics_init] returns NULL exactly when the allocation or
    the mutex creation fails, then holding nothing and having printed one
    error line.  Otherwise every counter is 0, the latency sum and
    maximum are 0 and the minimum is the sentinel -1, and
    [analytics_destroy] releases both resources.  Destroying NULL does
    nothing. *)
Theorem analytics_init_lifecycle malloc_ok mutex_ok :
  ∃ r, analytics_init' malloc_ok mutex_ok = Some r
    ∧ (ainit_ptr r = None ↔ malloc_ok = false ∨ mutex_ok = false)
    ∧ (ainit_ptr r = None →
       ainit_held r = [] ∧ ∃ m, ainit_out r = [AStderr m])
    ∧ (∀ a, ainit_ptr r = Some a →
       a = mkAnalytics double 0 0 0 0 d_zero d_minus_one d_zero 0 0 0
       ∧ ainit_out r = adebug dbg DbgAnalyticsInitialized
       ∧ analytics_destroy dbg double (Some a) (ainit_held r)
         = Some ([], adebug dbg DbgAnalyticsDestroying
                     ++ adebug dbg DbgAnalyticsReleased))
    ∧ (∀ held, analytics_destroy dbg double None held = Some (held, [])).
Proof.
  unfold analytics_init.
  destruct malloc_ok, mutex_ok; cbn [negb];
    (eexists; split; [vm_compute; reflexivity|]);
    cbn [ainit_ptr ainit_held ainit_out];
    (split_and!; [split; [intros; auto|]| | |done]);
    try done; try (intros [|]; done); try (intros _; split; eauto).
  intros a [= <-]. split_and!; [done|done|].
  vm_compute. by destruct dbg.
Qed.

(** X13. From a freshly initialised analytics structure, after any
    sequence of recorder calls short enough not to overflow a [long],
    each counter equals the number of calls that bump it: produce calls,
    consume calls of either kind, producer blocks, consumer blocks, and
    per bucket the priority-consume calls whose priority is
    [PRIORITY_HIGH], else [PRIORITY_NORMAL], else anything.  So the three
    buckets add up to [total_consumed] minus the number of plain
    [analytics_record_consume] calls.  [analytics_get_snapshot] copies
    the four main counters into the cells it is given and leaves a NULL
    cell alone, and on a NULL structure every recorder is a no-op. *)
Theorem analytics_counters_count_calls r a0 ms :
  analytics_init' true true = Some r → ainit_ptr r = Some a0 →
  Z.of_nat (length ms) <= LONG_MAX →
  ∃ a, record_all' (Some a0) ms = Some (Some a)
    ∧ total_produced a = count' (bumps_produced double) ms
    ∧ total_consumed a = count' (bumps_consumed double) ms
    ∧ producer_blocks a = count' (bumps_producer_blocks double) ms
    ∧ consumer_blocks a = count' (bumps_consumer_blocks double) ms
    ∧ high_priority_consumed a = count' (bumps_high HIGH double) ms
    ∧ normal_priority_consumed a
      = count' (bumps_normal HIGH NORMAL double) ms
    ∧ low_priority_consumed a = count' (bumps_low HIGH NORMAL double) ms
    ∧ high_priority_consumed a + normal_priority_consumed a
      + low_priority_consumed a
      = total_consumed a
        - count' (λ m, match m with RecConsume _ _ => true | _ => false end)
            ms
    ∧ (∀ c1 c2 c3 c4,
         analytics_get_snapshot double (Some a) (Some c1) None (Some c3)
           (Some c4)
         = (Some (total_produced a), None, Some (producer_blocks a),
            Some (consumer_blocks a))
         ∧ analytics_get_snapshot double (Some a) None (Some c2) None None
           = (None, Some (total_consumed a), None, None))
    ∧ record_all' None ms = Some None.
Proof.
  intros Hr Hptr Hlen. injection Hr as <-. injection Hptr as <-.
  destruct (record_all_counts ms
              (mkAnalytics double 0 0 0 0 d_zero d_minus_one d_zero 0 0 0))
    as (a & Hrun & E1 & E2 & E3 & E4 & E5 & E6 & E7);
    cbn [total_produced total_consumed producer_blocks consumer_blocks
           high_priority_consumed normal_priority_consumed
           low_priority_consumed] in *; try lia.
  exists a. rewrite E1, E2, E3, E4, E5, E6, E7.
  split_and!; try done.
  - rewrite count_consumed_split. lia.
  - intros c1 c2 c3 c4. cbn. by rewrite E1, E2, E3, E4.
  - clear. induction ms as [|m ms IH]; [done|].
    cbn [record_all]. by destruct m.
Qed.

(** X14. The minimum latency uses "negative" as its not-yet-set marker.
    Given that -1 < 0 in the [double] arithmetic, the first latency
    recorded after initialisation always becomes the minimum; after a
    second consume the minimum is the smaller of the two when the first
    was not negative, but when the first was negative it is overwritten
    by the second whatever its value. *)
Theorem min_latency_sentinel r a0 p1 l1 p2 l2 :
  d_lt d_minus_one d_zero = true →
  analytics_init' true true = Some r → ainit_ptr r = Some a0 →
  2 <= LONG_MAX →
  ∃ a1 a2,
    analytics_record_consume_priority HIGH NORMAL LONG_MAX double d_add d_lt
      d_zero (Some a0) p1 l1 = Some (Some a1)
    ∧ analytics_record_consume_priority HIGH NORMAL LONG_MAX double d_add
        d_lt d_zero (Some a1) p2 l2 = Some (Some a2)
    ∧ min_latency a1 = l1
    ∧ (d_lt l1 d_zero = true → min_latency a2 = l2)
    ∧ (d_lt l1 d_zero = false →
       min_latency a2 = if d_lt l2 l1 then l2 else l1).
Proof.
  intros Hneg Hr Hptr Hlong. injection Hr as <-. injection Hptr as <-.
  unfold analytics_record_consume_priority.
  cbn [total_produced total_consumed producer_blocks consumer_blocks
         total_latency min_latency max_latency high_priority_consumed
         normal_priority_consumed low_priority_consumed].
  destruct (p1 =? HIGH); [|destruct (p1 =? NORMAL)];
    (destruct (p2 =? HIGH); [|destruct (p2 =? NORMAL)]); incr_ok;
    (eexists _, _; split; [reflexivity|]);
    cbn [total_produced total_consumed producer_blocks consumer_blocks
           total_latency min_latency max_latency high_priority_consumed
           normal_priority_consumed low_priority_consumed];
    incr_ok; (split; [reflexivity|]);
    cbn [min_latency];
    replace (update_min double d_lt d_zero d_minus_one l1) with l1
      by (unfold update_min; by rewrite Hneg);
    (split; [done|]); split; intros Hl1; unfold update_min; by rewrite Hl1.
Qed.

End AnalyticsProofs.

Lemma analytics_counters_count_calls_witness :
  analytics_init false Z 0 (-1) true true
  = Some (mkAnalyticsInit Z (Some (mkAnalytics Z 0 0 0 0 0 (-1) 0 0 0 0))
            [AnalyticsMutex; AnalyticsStruct] [])
  ∧ Z.of_nat (length sample_metrics) <= 2 ^ 63 - 1
  ∧ ∃ a, record_all 9 5 (2 ^ 63 - 1) Z Z.add Z.ltb 0
           (Some (mkAnalytics Z 0 0 0 0 0 (-1) 0 0 0 0)) sample_metrics
         = Some (Some a)
    ∧ a = mkAnalytics Z 3 4 1 1 13 1 7 1 1 1
    ∧ total_produced a = count Z (bumps_produced Z) sample_metrics
    ∧ total_consumed a = count Z (bumps_consumed Z) sample_metrics
    ∧ high_priority_consumed a + normal_priority_consumed a
      + low_priority_consumed a
      = total_consumed a
        - count Z (λ m, match m with RecConsume _ _ => true | _ => false end)
            sample_metrics.
Proof.
  split; [reflexivity|]. split; [vm_compute; discriminate|].
  destruct (analytics_counters_count_calls false 9 5 (2 ^ 63 - 1) Z Z.add
              Z.ltb 0 (-1) _ _ sample_metrics eq_refl eq_refl
              ltac:(vm_compute; discriminate))
    as (a & Hrun & E1 & E2 & _ & _ & _ & _ & _ & Esum & _).
  exists a. split; [exact Hrun|].
  split; [vm_compute in Hrun; by injection Hrun as <-|].
  split; [exact E1|]. split; [exact E2|exact Esum].
Defined.

Lemma min_latency_sentinel_witness :
  (-1 <? 0) = true
  ∧ 2 <= 2 ^ 63 - 1
  ∧ (∃ a1 a2,
       analytics_record_consume_priority 9 5 (2 ^ 63 - 1) Z Z.add Z.ltb 0
         (Some (mkAnalytics Z 0 0 0 0 0 (-1) 0 0 0 0)) 9 (-2) = Some (Some a1)
       ∧ analytics_record_consume_priority 9 5 (2 ^ 63 - 1) Z Z.add Z.ltb 0
           (Some a1) 5 4 = Some (Some a2)
       ∧ (-2 <? 0) = true
       ∧ min_latency a1 = -2 ∧ min_latency a2 = 4)
  ∧ (∃ a1 a2,
       analytics_record_consume_priority 9 5 (2 ^ 63 - 1) Z Z.add Z.ltb 0
         (Some (mkAnalytics Z 0 0 0 0 0 (-1) 0 0 0 0)) 9 3 = Some (Some a1)
       ∧ analytics_record_consume_priority 9 5 (2 ^ 63 - 1) Z Z.add Z.ltb 0
           (Some a1) 5 4 = Some (Some a2)
       ∧ (3 <? 0) = false
       ∧ min_latency a1 = 3 ∧ min_latency a2 = 3).
Proof.
  split; [reflexivity|]. split; [vm_compute; discriminate|]. split.
  - destruct (min_latency_sentinel false 9 5 (2 ^ 63 - 1) Z Z.add Z.ltb 0
                (-1) _ _ 9 (-2) 5 4 eq_refl eq_refl eq_refl
                ltac:(vm_compute; discriminate))
      as (a1 & a2 & H1 & H2 & Hm1 & Hneg & _).
    exists a1, a2. split; [exact H1|]. split; [exact H2|].
    split; [reflexivity|]. split; [exact Hm1|exact (Hneg eq_refl)].
  - destruct (min_latency_sentinel false 9 5 (2 ^ 63 - 1) Z Z.add Z.ltb 0
                (-1) _ _ 9 3 5 4 eq_refl eq_refl eq_refl
                ltac:(vm_compute; discriminate))
      as (a1 & a2 & H1 & H2 & Hm1 & _ & Hpos).
    exists a1, a2. split; [exact H1|]. split; [exact H2|].
    split; [reflexivity|]. split; [exact Hm1|exact (Hpos eq_refl)].
Defined.

(** * First in, first out within a priority *)

Lemma step_post_priority_order (q q' : Queue) o p enq deq rest :
  step_post q q' o →
  of_priority p (contents q') ++ of_priority p enq
  = of_priority p deq ++ rest →
  of_priority p (contents q)
  ++ of_priority p match o with Enqueued x => x :: enq | _ => enq end
  = of_priority p match o with Dequeued x => x :: deq | _ => deq end
    ++ rest.
Proof.
  destruct o as [x|x| | |]; cbn [step_post].
  - intros (_ & _ & Hc) IH. rewrite Hc in IH. rewrite <- IH.
    unfold of_priority. rewrite filter_app, !filter_cons, filter_nil.
    case_decide; [|by rewrite app_nil_r].
    by rewrite <- (assoc_L (++)).
  - intros (_ & _ & k & Hsel & Hc) IH. rewrite Hc in IH.
    rewrite (selects_of_priority _ _ _ p Hsel).
    case_decide as Hp.
    + replace (of_priority p (x :: deq)) with (x :: of_priority p deq)
        by (unfold of_priority; by rewrite filter_cons_True).
      cbn. by rewrite IH.
    + replace (of_priority p (x :: deq)) with (of_priority p deq)
        by (unfold of_priority; by rewrite filter_cons_False).
      done.
  - by intros ->.
  - by intros ->.
  - by intros ->.
Qed.

(** X15. End-to-end FIFO within each priority, for every interleaving.
    After any sequence of operations on a freshly initialised queue, and
    for every priority [p], the items of priority [p] handed to
    successful enqueues are, in the same order, the items of priority
    [p] returned by the dequeues followed by those still stored: no two
    items of equal priority are ever delivered out of arrival order. *)
Theorem per_priority_fifo dbg P c r q0 flag ops p :
  queue_init dbg P c = Some r → init_queue r = Some q0 →
  ∃ tr, run dbg (mkWorld q0 flag) ops = Some tr
    ∧ of_priority p (enqueued_items tr)
      = of_priority p (dequeued_items tr)
        ++ of_priority p (contents (w_queue (final (mkWorld q0 flag) tr))).
Proof.
  intros Hr Hq.
  destruct (queue_init_some dbg P c r q0 Hr Hq) as (-> & Hc & _ & _).
  pose proof (fresh_queue_wf P c Hc) as Hwf0.
  assert (Hgen : ∀ ops w, wf (w_queue w) →
    ∃ tr, run dbg w ops = Some tr
      ∧ of_priority p (contents (w_queue w))
        ++ of_priority p (enqueued_items tr)
        = of_priority p (dequeued_items tr)
          ++ of_priority p (contents (w_queue (final w tr)))).
  { clear. induction ops as [|op ops IH]; intros w Hwf.
    - exists []. split; [done|]. cbn. by rewrite app_nil_r.
    - destruct (step_spec dbg w op Hwf) as (w1 & o & Hstep & Hwf1 & _ & Hpost).
      destruct (IH w1 Hwf1) as (rest & Hrun & Hord).
      exists ((o, w1) :: rest). split.
      + cbn [run]. rewrite Hstep. cbn [mbind option_bind]. by rewrite Hrun.
      + rewrite final_cons.
        pose proof (step_post_priority_order _ _ _ p _ _ _ Hpost Hord) as Hs.
        unfold enqueued_items, dequeued_items. cbn [omap fst].
        fold (enqueued_items rest). fold (dequeued_items rest).
        destruct o; exact Hs. }
  destruct (Hgen ops (mkWorld (fresh_queue P c) flag) Hwf0) as (tr & Hrun & Hord).
  exists tr. split; [done|].
  cbn [w_queue] in Hord. by rewrite fresh_queue_empty in Hord.
Qed.

Lemma per_priority_fifo_witness :
  queue_init false good_platform 2 = Some sample_init
  ∧ init_queue sample_init = Some (fresh_queue good_platform 2)
  ∧ ∃ tr, run false (mkWorld (fresh_queue good_platform 2) 0)
            [Enqueue item_A false; Enqueue item_B false;
             Dequeue zero_item false; Enqueue item_C false;
             Dequeue zero_item false]
          = Some tr
    ∧ enqueued_items tr = [item_A; item_B; item_C]
    ∧ dequeued_items tr = [item_A; item_C]
    ∧ of_priority 3 (enqueued_items tr)
      = of_priority 3 (dequeued_items tr)
        ++ of_priority 3
             (contents (w_queue
                (final (mkWorld (fresh_queue good_platform 2) 0) tr))).
Proof.
  split; [reflexivity|]. split; [reflexivity|].
  destruct (per_priority_fifo false good_platform 2 sample_init
              (fresh_queue good_platform 2) 0
              [Enqueue item_A false; Enqueue item_B false;
               Dequeue zero_item false; Enqueue item_C false;
               Dequeue zero_item false] 3 eq_refl eq_refl)
    as (tr & Hrun & Hord).
  exists tr. split; [exact Hrun|].
  vm_compute in Hrun. injection Hrun as <-.
  split; [reflexivity|]. split; [reflexivity|]. exact Hord.
Defined.
